(** * Document scanner: corner ordering, candidate selection, rectification

    A shallow embedding of the notebook [scanner.ipynb]
    ([order_points], [four_point_transform], [scan_document] and the
    [__main__] cell) together with the properties of it that the
    specification states.

    Numbers.  The notebook computes on IEEE 754 floats.  The development
    has two layers.
    - The first layer idealises: coordinates, areas and perimeters are
      exact rationals ([Q]) and no operation rounds.  It carries the
      statements about the structure of the pipeline (which contour is
      selected, what is printed and returned, what is read) and about the
      ordering of quadrilaterals whose extremes are separated by more than
      rounding can bridge.
    - The second layer, module [Np], follows NumPy's arithmetic: a float is
      the rational it denotes, and every operation rounds its exact result
      to the nearest float of its format, ties to even ([rnd]).  It carries
      the statements whose truth depends on rounding: which rows
      [order_points] returns, the destination size, the width of the
      working copy.  Infinities, NaN and the sign of zero are not
      represented; magnitudes stay far from overflow for image
      coordinates.
    Python's [int(...)] of a float drops the fractional part. *)

From Stdlib Require Import ZArith QArith Qround Qabs Qpower Lqa Lia List String Bool.
From Stdlib Require Import Permutation Sorted.
Import ListNotations.

Open Scope Q_scope.

(** ** NumPy helpers used by [order_points] *)

(** From here to the test implementation of the OpenCV interface: the
    first layer, without rounding. *)

(** A row of a [(n, 2)] array. *)
Definition Point : Type := (Q * Q)%type.

(** [pts.sum(axis=1)]: one entry per row, [x + y]. *)
Definition sum_axis1 (pts : list Point) : list Q :=
  map (fun p => fst p + snd p) pts.

(** [np.diff(pts, axis=1)]: one entry per row, second column minus first,
    that is [y - x]. *)
Definition diff_axis1 (pts : list Point) : list Q :=
  map (fun p => snd p - fst p) pts.

(** [np.argmin]: the index of the first occurrence of the minimum
    (0 on the empty list, where NumPy raises; callers check for that). *)
Fixpoint argmin (l : list Q) : nat :=
  match l with
  | [] => 0%nat
  | x :: l' =>
      match l' with
      | [] => 0%nat
      | _ :: _ =>
          let j := argmin l' in
          if Qle_bool x (nth j l' 0) then 0%nat else S j
      end
  end.

(** [np.argmax]: the index of the first occurrence of the maximum. *)
Fixpoint argmax (l : list Q) : nat :=
  match l with
  | [] => 0%nat
  | x :: l' =>
      match l' with
      | [] => 0%nat
      | _ :: _ =>
          let j := argmax l' in
          if Qle_bool (nth j l' 0) x then 0%nat else S j
      end
  end.

(** ** [order_points] *)

(** The [(4, 2)] array [rect], by row. *)
Record Rect : Type := mkRect { rect0 : Point; rect1 : Point; rect2 : Point; rect3 : Point }.

Definition rect_rows (r : Rect) : list Point :=
  [rect0 r; rect1 r; rect2 r; rect3 r].

Definition origin : Point := (0, 0).

(** [[
def order_points(pts):
    rect = np.zeros((4, 2), dtype="float32")
    s = pts.sum(axis=1)
    rect[0] = pts[np.argmin(s)]
    rect[2] = pts[np.argmax(s)]
    diff = np.diff(pts, axis=1)
    rect[1] = pts[np.argmin(diff)]
    rect[3] = pts[np.argmax(diff)]
    return rect
]]
    [None] stands for the [ValueError] that [np.argmin] raises on an empty
    array. *)
Definition order_points (pts : list Point) : option Rect :=
  match pts with
  | [] => None
  | _ :: _ =>
      let s := sum_axis1 pts in
      let diff := diff_axis1 pts in
      Some {| rect0 := nth (argmin s) pts origin;
              rect2 := nth (argmax s) pts origin;
              rect1 := nth (argmin diff) pts origin;
              rect3 := nth (argmax diff) pts origin |}
  end.

(** ** [four_point_transform] *)

(** [(a[0] - b[0]) ** 2 + (a[1] - b[1]) ** 2], the argument of [np.sqrt]. *)
Definition sq_dist (a b : Point) : Q :=
  (fst a - fst b) ^ 2 + (snd a - snd b) ^ 2.

(** [int(np.sqrt(v))] for [v >= 0].  The square root itself is irrational in
    general; its integer part is the integer square root of the integer
    part of [v] (see [int_sqrt_spec]). *)
Definition int_sqrt (v : Q) : Z := Z.sqrt (Qfloor v).

(** Python's [int(q)] on a float: truncation towards zero. *)
Definition py_int (q : Q) : Z :=
  if Qle_bool 0 q then Qfloor q else Qceiling q.

(** A contour as OpenCV returns it: integer pixel coordinates. *)
Definition Contour : Type := list (Z * Z).

(** The part of [cv2] the notebook calls.  These are library functions, not
    code of the notebook: they are operations of an interface, and every
    statement about the notebook's own functions holds for each
    implementation of it.  [imread] stands for the file system as seen
    through [cv2.imread]: [None] when the file cannot be read.  The
    operations are total: errors that OpenCV raises itself on arguments it
    rejects are not modelled. *)
Record OpenCV : Type := {
  Image : Type;
  Matrix : Type;
  imread : string -> option Image;
  shape : Image -> Z * Z;
  resize : Image -> Z * Z -> Image;
  cvtColor_BGR2GRAY : Image -> Image;
  GaussianBlur : Image -> Z * Z -> Q -> Image;
  Canny : Image -> Q -> Q -> Image;
  dilate : Image -> Z * Z -> Z -> Image;
  erode : Image -> Z * Z -> Z -> Image;
  findContours_LIST_SIMPLE : Image -> list Contour;
  contourArea : Contour -> Q;
  arcLength : Contour -> bool -> Q;
  approxPolyDP : Contour -> Q -> bool -> Contour;
  getPerspectiveTransform : Rect -> Rect -> Matrix;
  warpPerspective : Image -> Matrix -> Z * Z -> Image;
  adaptiveThreshold_GAUSSIAN_BINARY : Image -> Z -> Z -> Q -> Image
}.

(** [(maxWidth, maxHeight)] as [four_point_transform] computes them from
    [(tl, tr, br, bl) = rect]. *)
Definition dest_size (rect : Rect) : Z * Z :=
  let '(tl, tr, br, bl) := (rect0 rect, rect1 rect, rect2 rect, rect3 rect) in
  let maxWidth := Z.max (int_sqrt (sq_dist br bl)) (int_sqrt (sq_dist tr tl)) in
  let maxHeight := Z.max (int_sqrt (sq_dist tr br)) (int_sqrt (sq_dist tl bl)) in
  (maxWidth, maxHeight).

(** The array [dst]. *)
Definition dst_rect (size : Z * Z) : Rect :=
  let '(maxWidth, maxHeight) := size in
  {| rect0 := (0, 0);
     rect1 := (inject_Z (maxWidth - 1), 0);
     rect2 := (inject_Z (maxWidth - 1), inject_Z (maxHeight - 1));
     rect3 := (0, inject_Z (maxHeight - 1)) |}.

(** [[
def four_point_transform(image, pts):
    rect = order_points(pts)
    (tl, tr, br, bl) = rect
    widthA = np.sqrt(((br[0] - bl[0]) ** 2) + ((br[1] - bl[1]) ** 2))
    widthB = np.sqrt(((tr[0] - tl[0]) ** 2) + ((tr[1] - tl[1]) ** 2))
    maxWidth = max(int(widthA), int(widthB))
    heightA = np.sqrt(((tr[0] - br[0]) ** 2) + ((tr[1] - br[1]) ** 2))
    heightB = np.sqrt(((tl[0] - bl[0]) ** 2) + ((tl[1] - bl[1]) ** 2))
    maxHeight = max(int(heightA), int(heightB))
    dst = np.array([[0, 0], [maxWidth - 1, 0],
                    [maxWidth - 1, maxHeight - 1], [0, maxHeight - 1]], dtype="float32")
    M = cv2.getPerspectiveTransform(rect, dst)
    warped = cv2.warpPerspective(image, M, (maxWidth, maxHeight))
    return warped
]]
    [None] is the exception of [order_points]; the function has no other
    way of not returning an image. *)
Definition four_point_transform (cv : OpenCV) (image : Image cv) (pts : list Point)
  : option (Image cv) :=
  match order_points pts with
  | None => None
  | Some rect =>
      let size := dest_size rect in
      let dst := dst_rect size in
      let M := getPerspectiveTransform cv rect dst in
      let warped := warpPerspective cv image M size in
      Some warped
  end.

(** ** Python effects: exceptions and what the run does to the outside *)

Inductive PyExn : Type :=
| AttributeError
| ZeroDivisionError
| ValueError
| TypeError
| Cv2Error.

(** What a run does besides computing: files read through [cv2.imread],
    lines printed to standard output, figures shown. *)
Inductive Event : Type :=
| EvImread (path : string)
| EvPrint (text : string)
| EvShow.

Inductive Outcome (A : Type) : Type :=
| Returned (a : A)
| Raised (e : PyExn).
Arguments Returned {A} a.
Arguments Raised {A} e.

(** A computation: how it ends and the events it caused, in order. *)
Definition Py (A : Type) : Type := (Outcome A * list Event)%type.

Definition ret {A} (a : A) : Py A := (Returned a, []).
Definition raise {A} (e : PyExn) : Py A := (Raised e, []).
Definition emit (ev : Event) : Py unit := (Returned tt, [ev]).
Definition bind {A B} (m : Py A) (f : A -> Py B) : Py B :=
  match m with
  | (Returned a, t) => let '(o, t') := f a in (o, t ++ t')
  | (Raised e, t) => (Raised e, t)
  end.

Notation "x <- m ;; k" := (bind m (fun x => k))
  (at level 61, m at next level, right associativity).
Notation "m ;;; k" := (bind m (fun _ => k))
  (at level 61, right associativity).

(** ** [scan_document] *)

(** [sorted(cnts, key=key, reverse=True)]: descending by key; Python's sort
    is stable, also with [reverse=True], so entries with equal keys keep
    their order.  [insert_desc] puts [c] in front of the first entry whose
    key is not larger. *)
Fixpoint insert_desc {A} (key : A -> Q) (c : A) (l : list A) : list A :=
  match l with
  | [] => [c]
  | d :: l' =>
      if Qle_bool (key d) (key c) then c :: d :: l'
      else d :: insert_desc key c l'
  end.

Definition sorted_reverse {A} (key : A -> Q) (l : list A) : list A :=
  fold_right (insert_desc key) [] l.

(** [b] does not rank above [a]. *)
Definition ranks_before {A} (key : A -> Q) (a b : A) : Prop := key b <= key a.

(** What the notebook returns: [None], or the pair [(image, T)]. *)
Inductive ScanValue (cv : OpenCV) : Type :=
| PyNone
| PyPair (image T : Image cv).
Arguments PyNone {cv}.
Arguments PyPair {cv} image T.

Definition no_document_message : string :=
  "No document detected. Please try another image.".

Section Scanner.

Variable cv : OpenCV.

(** [[
    screenCnt = None
    for c in cnts:
        peri = cv2.arcLength(c, True)
        approx = cv2.approxPolyDP(c, 0.02 * peri, True)
        if len(approx) == 4:
            screenCnt = approx
            break
]]
    The value of [screenCnt] after the loop. *)
Fixpoint find_screenCnt (cnts : list Contour) : option Contour :=
  match cnts with
  | [] => None
  | c :: rest =>
      let peri := arcLength cv c true in
      let approx := approxPolyDP cv c ((2 # 100) * peri) true in
      if Nat.eqb (List.length approx) 4 then Some approx
      else find_screenCnt rest
  end.

(** The simplification of one contour, as the loop body computes it. *)
Definition simplified (c : Contour) : Contour :=
  approxPolyDP cv c ((2 # 100) * arcLength cv c true) true.

(** The contour does not simplify to four vertices. *)
Definition not_quad (c : Contour) : Prop :=
  List.length (simplified c) <> 4%nat.

(** The edge map of the working copy. *)
Definition edge_map (image : Image cv) : Image cv :=
  let gray := cvtColor_BGR2GRAY cv image in
  let gray := GaussianBlur cv gray (5, 5)%Z 0 in
  let edged := Canny cv gray 75 200 in
  let edged := dilate cv edged (3, 3)%Z 1 in
  let edged := erode cv edged (3, 3)%Z 1 in
  edged.

(** [sorted(cnts, key=cv2.contourArea, reverse=True)[:5]]. *)
Definition top5 (cnts : list Contour) : list Contour :=
  firstn 5 (sorted_reverse (contourArea cv) cnts).

(** [screenCnt.reshape(4, 2) * ratio]. *)
Definition scale (ratio : Q) (c : Contour) : list Point :=
  map (fun p => (inject_Z (fst p) * ratio, inject_Z (snd p) * ratio)) c.

(** The working copy: [cv2.resize(image, (int(image.shape[1] / ratio), 500))]. *)
Definition working_copy (orig : Image cv) (ratio : Q) : Image cv :=
  resize cv orig (py_int (inject_Z (snd (shape cv orig)) / ratio), 500%Z).

(** [scan_document(image_path)].  [cv2.imread] gives [None] for a file it
    cannot read, and [image.copy()] then raises [AttributeError]; a
    zero-row image makes [ratio] zero and the division raise. *)
Definition scan_document (image_path : string) : Py (ScanValue cv) :=
  emit (EvImread image_path) ;;;
  match imread cv image_path with
  | None => raise AttributeError
  | Some image =>
      let orig := image in
      let ratio := inject_Z (fst (shape cv image)) / 500 in
      if Qeq_bool ratio 0 then raise ZeroDivisionError
      else
        let image := working_copy orig ratio in
        let edged := edge_map image in
        let cnts := findContours_LIST_SIMPLE cv edged in
        let cnts := top5 cnts in
        match find_screenCnt cnts with
        | None =>
            emit (EvPrint no_document_message) ;;;
            ret PyNone
        | Some screenCnt =>
            match four_point_transform cv orig (scale ratio screenCnt) with
            | None => raise ValueError
            | Some warped =>
                let warped := cvtColor_BGR2GRAY cv warped in
                let T := adaptiveThreshold_GAUSSIAN_BINARY cv warped 255 11 2 in
                ret (PyPair image T)
            end
        end
  end.

Definition input_image_path : string := "sample_images/dollar_bill.JPG".

(** Tuple unpacking, [a, b = value]: [None] is not iterable. *)
Definition unpack2 (value : ScanValue cv) : Py (Image cv * Image cv) :=
  match value with
  | PyNone => raise TypeError
  | PyPair a b => ret (a, b)
  end.

(** The [__main__] cell: [orig_resized, scanned_image = scan_document(...)],
    then, [scanned_image] not being [None], the figure is shown. *)
Definition main : Py unit :=
  r <- scan_document input_image_path ;;
  unpacked <- unpack2 r ;;
  let '(orig_resized, scanned_image) := unpacked in
  emit EvShow.

(** Names for what [scan_document] computes on the way, for the statements
    below: [ratio], and the value of [cnts] the loop runs over. *)
Definition ratio_of (orig : Image cv) : Q :=
  inject_Z (fst (shape cv orig)) / 500.

Definition candidates (orig : Image cv) : list Contour :=
  top5 (findContours_LIST_SIMPLE cv (edge_map (working_copy orig (ratio_of orig)))).

End Scanner.

(** ** The binarizer *)

(** A single-channel image, by rows; pixels are [0 .. 255]. *)
Definition GrayImage : Type := list (list Z).

Definition clamp (n : nat) (i : Z) : nat :=
  Z.to_nat (Z.max 0 (Z.min i (Z.of_nat n - 1))).

(** The pixel at row [i], column [j]; coordinates outside the image read
    the nearest border pixel. *)
Definition pixel (img : GrayImage) (i j : Z) : Z :=
  let row := nth (clamp (List.length img) i) img [] in
  nth (clamp (List.length row) j) row 0%Z.

Definition offsets : list Z := map (fun k => (Z.of_nat k - 5)%Z) (seq 0 11).

(** The 11 x 11 window, as offsets from the centre. *)
Definition window : list (Z * Z) := list_prod offsets offsets.

Fixpoint mapi_from {A B} (f : nat -> A -> B) (i : nat) (l : list A) : list B :=
  match l with
  | [] => []
  | x :: l' => f i x :: mapi_from f (S i) l'
  end.

(** Above the threshold is white, otherwise black. *)
Definition classify (v : Z) (T : Q) : Z :=
  if Qle_bool (inject_Z v) T then 0%Z else 255%Z.

Section Binarizer.

(** The one-dimensional weight of an offset; the window weight is the
    product of the row and the column weight. *)
Variable g : Z -> Q.

Definition weight (d : Z * Z) : Q := g (fst d) * g (snd d).

Definition weighted_sum (img : GrayImage) (i j : Z) : Q :=
  fold_right
    (fun d acc => weight d * inject_Z (pixel img (i + fst d) (j + snd d)) + acc)
    0 window.

Definition weight_total : Q :=
  fold_right (fun d acc => weight d + acc) 0 window.

Definition local_mean (img : GrayImage) (i j : Z) : Q :=
  weighted_sum img i j / weight_total.

(** Modelled from the spec: [cv2.adaptiveThreshold] is a library function
    whose code is not part of the notebook.  Section 4.6: for each pixel,
    the Gaussian-weighted mean of its 11 x 11 neighbourhood minus the
    constant 2 is the local threshold, and the pixel is classified above or
    below it.  The weights are left open ([g], any non-negative weights of
    positive total), so the statements hold for every Gaussian kernel. *)
Definition binarize (img : GrayImage) : GrayImage :=
  mapi_from
    (fun i row =>
       mapi_from
         (fun j v => classify v (local_mean img (Z.of_nat i) (Z.of_nat j) - 2))
         0 row)
    0 img.

End Binarizer.

(** The binarizer for any way of computing the local mean: a pixel above
    [mean - 2] becomes white, any other black.  [binarize g] is
    [threshold_by (local_mean g)]. *)
Definition threshold_by (mean : GrayImage -> Z -> Z -> Q) (img : GrayImage) : GrayImage :=
  mapi_from
    (fun i row =>
       mapi_from
         (fun j v => classify v (mean img (Z.of_nat i) (Z.of_nat j) - 2))
         0 row)
    0 img.

(** The local mean rounded to an integer, as an 8-bit implementation
    stores it before comparing. *)
Definition rounded_mean (g : Z -> Q) (img : GrayImage) (i j : Z) : Q :=
  inject_Z (Qfloor (local_mean g img i j + (1 # 2))).

(** A mean of the window lies between the least and the greatest pixel of
    the window. *)
Definition window_bounded (mean : GrayImage -> Z -> Z -> Q) : Prop :=
  forall (img : GrayImage) (i j lo hi : Z),
    (forall d, In d window ->
       (lo <= pixel img (i + fst d) (j + snd d) <= hi)%Z) ->
    inject_Z lo <= mean img i j /\ mean img i j <= inject_Z hi.

(** Row 10 of Pascal's triangle, the usual integer approximation of an
    11-tap Gaussian. *)
Definition binomial11 (d : Z) : Q :=
  inject_Z (nth (Z.to_nat (d + 5)) [1; 10; 45; 120; 210; 252; 210; 120; 45; 10; 1]%Z 0%Z).

(** An image is binary when each pixel is 0 or 255. *)
Definition binary (img : GrayImage) : Prop :=
  Forall (Forall (fun v => v = 0%Z \/ v = 255%Z)) img.

(** One row of 24 pixels, a dark bowl: [(j - 12)^2]. *)
Definition bowl : GrayImage :=
  [map (fun j => ((Z.of_nat j - 12) * (Z.of_nat j - 12))%Z) (seq 0 24)].

(** The bowl binarized once: every pixel is darker than its surroundings
    by more than 2 except near the ends of the row. *)
Definition bowl_once : GrayImage :=
  Eval vm_compute in binarize binomial11 bowl.

(** The same with the mean rounded to an integer. *)
Definition bowl_once_rounded : GrayImage :=
  Eval vm_compute in threshold_by (rounded_mean binomial11) bowl.

(** ** A small implementation of the interface, to run the notebook on *)

(** A scene: the shape of a picture and the closed polygons drawn in it,
    in the coordinates of the 500-row working copy.  The polygons are
    already simplified and have axis-parallel edges, so tracing returns
    them as they are and edge lengths are rational. *)
Record Scene : Type := mkScene {
  sc_rows : Z;
  sc_cols : Z;
  sc_curves : list Contour
}.

(** Twice the signed area, by the shoelace formula, closing the polygon
    with [first]. *)
Fixpoint shoelace2 (first : Z * Z) (c : Contour) : Z :=
  match c with
  | [] => 0%Z
  | p :: rest =>
      let q := match rest with [] => first | q :: _ => q end in
      (fst p * snd q - fst q * snd p + shoelace2 first rest)%Z
  end.

Definition scene_area (c : Contour) : Q :=
  match c with
  | [] => 0
  | first :: _ => inject_Z (Z.abs (shoelace2 first c)) / 2
  end.

Fixpoint perimeter1 (first : Z * Z) (c : Contour) : Z :=
  match c with
  | [] => 0%Z
  | p :: rest =>
      let q := match rest with [] => first | q :: _ => q end in
      (Z.abs (fst q - fst p) + Z.abs (snd q - snd p) + perimeter1 first rest)%Z
  end.

Definition scene_perimeter (c : Contour) (closed : bool) : Q :=
  match c with
  | [] => 0
  | first :: _ => inject_Z (perimeter1 first c)
  end.

Definition scene_cv (files : string -> option Scene) : OpenCV := {|
  Image := Scene;
  Matrix := Rect * Rect;
  imread := files;
  shape := fun s => (sc_rows s, sc_cols s);
  resize := fun s size => mkScene (snd size) (fst size) (sc_curves s);
  cvtColor_BGR2GRAY := fun s => s;
  GaussianBlur := fun s _ _ => s;
  Canny := fun s _ _ => s;
  dilate := fun s _ _ => s;
  erode := fun s _ _ => s;
  findContours_LIST_SIMPLE := sc_curves;
  contourArea := scene_area;
  arcLength := scene_perimeter;
  approxPolyDP := fun c _ _ => c;
  getPerspectiveTransform := fun src dst => (src, dst);
  warpPerspective := fun s _ size => mkScene (snd size) (fst size) [];
  adaptiveThreshold_GAUSSIAN_BINARY := fun s _ _ _ => s
|}.

(** A 1000 x 800 photograph of a sheet, with a larger L-shaped shadow and
    a small L-shaped speck. *)
Definition sheet : Contour := [(50, 40); (250, 40); (250, 340); (50, 340)]%Z.
Definition shadow : Contour :=
  [(0, 0); (399, 0); (399, 250); (200, 250); (200, 499); (0, 499)]%Z.
Definition speck : Contour :=
  [(10, 10); (30, 10); (30, 20); (20, 20); (20, 30); (10, 30)]%Z.

Definition photo : Scene := mkScene 1000 800 [speck; sheet; shadow].

(** A uniformly coloured picture: no edges, so no curves. *)
Definition blank : Scene := mkScene 1000 800 [].

(** Shadow and speck without a sheet. *)
Definition clutter : Scene := mkScene 1000 800 [speck; shadow].

Definition files (path : string) : option Scene :=
  if String.eqb path "sample_images/dollar_bill.JPG" then Some photo
  else if String.eqb path "blank.png" then Some blank
  else if String.eqb path "clutter.png" then Some clutter
  else None.

(** Another directory, with the cluttered picture under the sample's name. *)
Definition files_clutter (path : string) : option Scene :=
  if String.eqb path "sample_images/dollar_bill.JPG" then Some clutter
  else None.

(** ** Contours for the examples *)

(** A sheet of 25 by 50 pixels in the working copy. *)
Definition small_sheet : Contour := [(10, 40); (35, 40); (35, 90); (10, 90)]%Z.

(** A sheet standing on a corner: in pixels, its left and top corner have
    the same [x + y]. *)
Definition tilted_sheet : Contour := [(100, 1); (250, 151); (150, 251); (0, 101)]%Z.

(** A receipt of 80 by 600, tilted by about 5 degrees, traced from its
    top-left corner. *)
Definition receipt : list Point := [(52, 0); (132, 7); (80, 605); (0, 598)].

(** A photograph of 480 rows and 640 columns showing the small sheet. *)
Definition vga : Scene := mkScene 480 640 [speck; small_sheet].

Definition files_vga (path : string) : option Scene :=
  if String.eqb path "sample_images/dollar_bill.JPG" then Some vga
  else None.

(** ** Predicates of the statements *)

(** [k] is the integer part of the square root of [v]. *)
Definition is_floor_sqrt (k : Z) (v : Q) : Prop :=
  (0 <= k)%Z /\ inject_Z k ^ 2 <= v /\ v < (inject_Z k + 1) ^ 2.

(** [p] is within [eps] of [c], in each coordinate. *)
Definition near (eps : Q) (p c : Point) : Prop :=
  fst c - eps <= fst p /\ fst p <= fst c + eps /\
  snd c - eps <= snd p /\ snd p <= snd c + eps.

(** Four points that are, in some order, within [eps] of the four corners
    of an axis-parallel rectangle whose sides are longer than [4 * eps]:
    a quadrilateral that is an axis-aligned rectangle up to a perturbation
    small against its sides. *)
Definition roughly_axis_aligned (pts : list Point) : Prop :=
  exists (x0 y0 x1 y1 eps : Q) (a b c d : Point),
    Permutation pts [a; b; c; d] /\
    0 <= eps /\ 4 * eps < x1 - x0 /\ 4 * eps < y1 - y0 /\
    near eps a (x0, y0) /\ near eps b (x1, y0) /\
    near eps c (x1, y1) /\ near eps d (x0, y1).

(** [x + y] and [x - y] of a point. *)
Definition psum (p : Point) : Q := fst p + snd p.
Definition pdiff (p : Point) : Q := fst p - snd p.

(** ** IEEE 754 rounding *)

(** A binary format: the number of significant bits and the exponent of
    the least positive (subnormal) number. *)
Record Format : Type := mkFormat { prec : Z; emin : Z }.

Definition binary64 : Format := mkFormat 53 (-1074).
Definition binary32 : Format := mkFormat 24 (-149).

Definition pow2 (e : Z) : Q := 2 ^ e.

(** The integer part of the binary logarithm of [a > 0]. *)
Definition ilog2 (a : Q) : Z :=
  let e0 := (Z.log2 (Qnum a) - Z.log2 (Zpos (Qden a)))%Z in
  if Qle_bool (pow2 e0) a then e0 else (e0 - 1)%Z.

(** The nearest integer, ties to the even one; also Python's [round]. *)
Definition rne (m : Q) : Z :=
  let f := Qfloor m in
  match Qcompare (m - inject_Z f) (1 # 2) with
  | Lt => f
  | Gt => (f + 1)%Z
  | Eq => if Z.even f then f else (f + 1)%Z
  end.

(** [rnd f q]: the float of format [f] nearest to [q], ties to even.  The
    unit in the last place is [2^u], where [u] is [prec f - 1] below the
    exponent of [q], and not below [emin f]. *)
Definition rnd (f : Format) (q : Q) : Q :=
  if Qeq_bool q 0 then 0
  else
    let a := Qabs q in
    let u := Z.max (ilog2 a - prec f + 1) (emin f) in
    let m := rne (a / pow2 u) in
    Qred ((if Qle_bool 0 q then 1 else -1) * (inject_Z m * pow2 u)).

(** [fsqrt f v]: the float of format [f] nearest to the square root of
    [v >= 0].  With [M = v / 4^u] the root is [sqrt M] units in the last
    place; [k] is its integer part, and [sqrt M] is compared with
    [k + 1/2] through the squares. *)
Definition fsqrt (f : Format) (v : Q) : Q :=
  if Qle_bool v 0 then 0
  else
    let u := Z.max (ilog2 v / 2 - prec f + 1) (emin f) in
    let M := v / pow2 (2 * u) in
    let k := Z.sqrt (Qfloor M) in
    let half := inject_Z (k * k + k) + (1 # 4) in
    let m := match Qcompare M half with
             | Lt => k
             | Gt => (k + 1)%Z
             | Eq => if Z.even k then k else (k + 1)%Z
             end in
    Qred (inject_Z m * pow2 u).

(** Half a unit in the last place of [q], from above. *)
Definition rnd_err (f : Format) (q : Q) : Q :=
  Qabs q * pow2 (- prec f) + pow2 (emin f - 1).

(** ** The notebook as NumPy computes it *)

Module Np.

(** Arithmetic on [float64] arrays and Python floats, and the conversion
    to [float32]. *)
Definition f64 : Q -> Q := rnd binary64.
Definition f32 : Q -> Q := rnd binary32.

(** One entry of [pts.sum(axis=1)] and of [np.diff(pts, axis=1)] on a
    [float64] array: [x + y] and [y - x], rounded. *)
Definition fsum (p : Point) : Q := f64 (fst p + snd p).
Definition fdiff (p : Point) : Q := f64 (snd p - fst p).

Definition sum_axis1 (pts : list Point) : list Q := map fsum pts.
Definition diff_axis1 (pts : list Point) : list Q := map fdiff pts.

(** Storing a row into [rect], whose dtype is [float32]. *)
Definition astype_float32 (p : Point) : Point := (f32 (fst p), f32 (snd p)).

(** [order_points(pts)] for a [float64] array [pts]: the sums and
    differences are rounded to [float64], the selected rows to [float32].
    [None] is the [ValueError] of [np.argmin] on an empty array. *)
Definition order_points (pts : list Point) : option Rect :=
  match pts with
  | [] => None
  | _ :: _ =>
      let s := sum_axis1 pts in
      let diff := diff_axis1 pts in
      Some {| rect0 := astype_float32 (nth (argmin s) pts origin);
              rect2 := astype_float32 (nth (argmax s) pts origin);
              rect1 := astype_float32 (nth (argmin diff) pts origin);
              rect3 := astype_float32 (nth (argmax diff) pts origin) |}
  end.

(** The square of a float, rounded once. *)
Definition rounded_square (f : Format) (x : Q) : Q := rnd f (x * x).

Section Scalars.

(** The format of arithmetic on a [float32] scalar and a Python [int], as
    in [(br[0] - bl[0]) ** 2]: [float32] under the promotion rules of
    NumPy 2, [float64] under the older ones.  The statements hold for
    either. *)
Variable scalar : Format.

(** [d ** 2] for a [float32] scalar [d], as the power function of the C
    library computes it in the scalar format.  The statements hold for
    every such function; the examples take [rounded_square scalar]. *)
Variable square : Q -> Q.

(** [np.sqrt(((a[0] - b[0]) ** 2) + ((a[1] - b[1]) ** 2))] for rows [a],
    [b] of [rect]: the differences are [float32]. *)
Definition distance (a b : Point) : Q :=
  let dx := f32 (fst a - fst b) in
  let dy := f32 (snd a - snd b) in
  fsqrt scalar (rnd scalar (square dx + square dy)).

Definition dest_size (rect : Rect) : Z * Z :=
  let '(tl, tr, br, bl) := (rect0 rect, rect1 rect, rect2 rect, rect3 rect) in
  let widthA := distance br bl in
  let widthB := distance tr tl in
  let maxWidth := Z.max (py_int widthA) (py_int widthB) in
  let heightA := distance tr br in
  let heightB := distance tl bl in
  let maxHeight := Z.max (py_int heightA) (py_int heightB) in
  (maxWidth, maxHeight).

(** The destination size with [round] in the place of [int], as the
    specification words it; to be compared with [dest_size]. *)
Definition spec_dest_size (rect : Rect) : Z * Z :=
  let '(tl, tr, br, bl) := (rect0 rect, rect1 rect, rect2 rect, rect3 rect) in
  (Z.max (rne (distance br bl)) (rne (distance tr tl)),
   Z.max (rne (distance tr br)) (rne (distance tl bl))).

(** The array [dst], of dtype [float32]. *)
Definition dst_rect (size : Z * Z) : Rect :=
  let '(maxWidth, maxHeight) := size in
  {| rect0 := (0, 0);
     rect1 := (f32 (inject_Z (maxWidth - 1)), 0);
     rect2 := (f32 (inject_Z (maxWidth - 1)), f32 (inject_Z (maxHeight - 1)));
     rect3 := (0, f32 (inject_Z (maxHeight - 1))) |}.

Definition four_point_transform (cv : OpenCV) (image : Image cv) (pts : list Point)
  : option (Image cv) :=
  match order_points pts with
  | None => None
  | Some rect =>
      let size := dest_size rect in
      let dst := dst_rect size in
      let M := getPerspectiveTransform cv rect dst in
      let warped := warpPerspective cv image M size in
      Some warped
  end.

Variable cv : OpenCV.

(** [cv2.approxPolyDP(c, 0.02 * peri, True)]: the product is [float64]. *)
Definition simplified (c : Contour) : Contour :=
  approxPolyDP cv c (f64 (f64 (2 # 100) * arcLength cv c true)) true.

Fixpoint find_screenCnt (cnts : list Contour) : option Contour :=
  match cnts with
  | [] => None
  | c :: rest =>
      let peri := arcLength cv c true in
      let approx := approxPolyDP cv c (f64 (f64 (2 # 100) * peri)) true in
      if Nat.eqb (List.length approx) 4 then Some approx
      else find_screenCnt rest
  end.

(** [ratio = image.shape[0] / 500.0]. *)
Definition ratio_of (image : Image cv) : Q :=
  f64 (inject_Z (fst (shape cv image)) / 500).

(** [int(image.shape[1] / ratio)]. *)
Definition working_width (image : Image cv) : Z :=
  py_int (f64 (inject_Z (snd (shape cv image)) / ratio_of image)).

(** [screenCnt.reshape(4, 2) * ratio]: [int32] times a Python float gives
    [float64]. *)
Definition scale (ratio : Q) (c : Contour) : list Point :=
  map (fun p => (f64 (inject_Z (fst p) * ratio), f64 (inject_Z (snd p) * ratio))) c.

(** [scan_document(image_path)].  Besides the two Python exceptions,
    [cv2.resize] rejects a target without columns with [cv2.error]. *)
Definition scan_document (image_path : string) : Py (ScanValue cv) :=
  emit (EvImread image_path) ;;;
  match imread cv image_path with
  | None => raise AttributeError
  | Some image =>
      let orig := image in
      let ratio := f64 (inject_Z (fst (shape cv image)) / 500) in
      if Qeq_bool ratio 0 then raise ZeroDivisionError
      else
        let width := py_int (f64 (inject_Z (snd (shape cv image)) / ratio)) in
        if (width <=? 0)%Z then raise Cv2Error
        else
          let image := resize cv image (width, 500%Z) in
          let edged := edge_map cv image in
          let cnts := findContours_LIST_SIMPLE cv edged in
          let cnts := top5 cv cnts in
          match find_screenCnt cnts with
          | None =>
              emit (EvPrint no_document_message) ;;;
              ret PyNone
          | Some screenCnt =>
              match four_point_transform cv orig (scale ratio screenCnt) with
              | None => raise ValueError
              | Some warped =>
                  let warped := cvtColor_BGR2GRAY cv warped in
                  let T := adaptiveThreshold_GAUSSIAN_BINARY cv warped 255 11 2 in
                  ret (PyPair image T)
              end
          end
  end.

Definition main : Py unit :=
  r <- scan_document input_image_path ;;
  unpacked <- unpack2 cv r ;;
  let '(orig_resized, scanned_image) := unpacked in
  emit EvShow.

(** The working copy and the value of [cnts] the loop runs over. *)
Definition working_copy (orig : Image cv) : Image cv :=
  resize cv orig (working_width orig, 500%Z).

Definition candidates (orig : Image cv) : list Contour :=
  top5 cv (findContours_LIST_SIMPLE cv (edge_map cv (working_copy orig))).

End Scalars.

(** A side [(dx, dy)] stays within 45 degrees of the positive first axis
    by more than [margin]. *)
Definition leans (margin dx dy : Q) : Prop :=
  margin < dx - dy /\ margin < dx + dy.

(** Four points that can be named top-left, top-right, bottom-right,
    bottom-left so that the top and the bottom side run within 45 degrees
    of the x axis and the left and the right side within 45 degrees of the
    y axis, each by more than [margin]. *)
Definition sides_within_45 (margin : Q) (pts : list Point) : Prop :=
  exists a b c d : Point,
    Permutation pts [a; b; c; d] /\
    leans margin (fst b - fst a) (snd b - snd a) /\
    leans margin (fst c - fst d) (snd c - snd d) /\
    leans margin (snd d - snd a) (fst d - fst a) /\
    leans margin (snd c - snd b) (fst c - fst b).

(** All coordinates satisfy [|x| + |y| <= B]. *)
Definition within (B : Q) (pts : list Point) : Prop :=
  forall p, In p pts ->
    fst p + snd p <= B /\ - B <= fst p + snd p /\
    snd p - fst p <= B /\ - B <= snd p - fst p.

(** Coordinates for which no operation of the notebook overflows, in
    [float32] or [float64]. *)
Definition in_range (pts : list Point) : Prop := within (pow2 60) pts.

(** Twice the largest [float64] rounding error of a sum or difference of
    coordinates within [B]. *)
Definition rounding_margin (B : Q) : Q :=
  2 * (B * pow2 (-53) + pow2 (-1075)).

End Np.

(** * Properties *)

(** ** [np.argmin] and [np.argmax] *)

Lemma argmin_lt_length (l : list Q) : l <> [] -> (argmin l < List.length l)%nat.
Proof.
  induction l as [|x [|y l'] IH]; intros Hne.
  - congruence.
  - simpl. lia.
  - change (argmin (x :: y :: l'))
      with (if Qle_bool x (nth (argmin (y :: l')) (y :: l') 0)
            then 0%nat else S (argmin (y :: l'))).
    destruct (Qle_bool _ _).
    + simpl. lia.
    + assert (argmin (y :: l') < List.length (y :: l'))%nat by (apply IH; discriminate).
      simpl in *. lia.
Qed.

Lemma argmax_lt_length (l : list Q) : l <> [] -> (argmax l < List.length l)%nat.
Proof.
  induction l as [|x [|y l'] IH]; intros Hne.
  - congruence.
  - simpl. lia.
  - change (argmax (x :: y :: l'))
      with (if Qle_bool (nth (argmax (y :: l')) (y :: l') 0) x
            then 0%nat else S (argmax (y :: l'))).
    destruct (Qle_bool _ _).
    + simpl. lia.
    + assert (argmax (y :: l') < List.length (y :: l'))%nat by (apply IH; discriminate).
      simpl in *. lia.
Qed.

Lemma Qle_bool_false (x y : Q) : Qle_bool x y = false -> y < x.
Proof.
  intros H. apply Qnot_le_lt. intros Hle.
  apply Qle_bool_iff in Hle. congruence.
Qed.

(** The entry at [argmin l] is a minimum of [l]. *)
Lemma argmin_le (l : list Q) (x : Q) : In x l -> nth (argmin l) l 0 <= x.
Proof.
  revert x. induction l as [|y [|z l'] IH]; intros x Hin.
  - destruct Hin.
  - destruct Hin as [<-|[]]. simpl. apply Qle_refl.
  - change (argmin (y :: z :: l'))
      with (if Qle_bool y (nth (argmin (z :: l')) (z :: l') 0)
            then 0%nat else S (argmin (z :: l'))).
    destruct (Qle_bool y _) eqn:E.
    + apply Qle_bool_iff in E. change (y <= x).
      destruct Hin as [<-|Hin]; [apply Qle_refl|].
      eapply Qle_trans; [exact E|]. now apply IH.
    + apply Qle_bool_false in E.
      change (nth (argmin (z :: l')) (z :: l') 0 <= x).
      destruct Hin as [<-|Hin]; [now apply Qlt_le_weak|]. now apply IH.
Qed.

(** The entry at [argmax l] is a maximum of [l]. *)
Lemma argmax_ge (l : list Q) (x : Q) : In x l -> x <= nth (argmax l) l 0.
Proof.
  revert x. induction l as [|y [|z l'] IH]; intros x Hin.
  - destruct Hin.
  - destruct Hin as [<-|[]]. simpl. apply Qle_refl.
  - change (argmax (y :: z :: l'))
      with (if Qle_bool (nth (argmax (z :: l')) (z :: l') 0) y
            then 0%nat else S (argmax (z :: l'))).
    destruct (Qle_bool _ y) eqn:E.
    + apply Qle_bool_iff in E. change (x <= y).
      destruct Hin as [<-|Hin]; [apply Qle_refl|].
      eapply Qle_trans; [|exact E]. now apply IH.
    + apply Qle_bool_false in E.
      change (x <= nth (argmax (z :: l')) (z :: l') 0).
      destruct Hin as [<-|Hin]; [now apply Qlt_le_weak|]. now apply IH.
Qed.

(** Ties go to the first occurrence: every earlier entry is strictly
    larger than the one at [argmin l]. *)
Lemma argmin_first (l : list Q) (j : nat) :
  (j < argmin l)%nat -> nth (argmin l) l 0 < nth j l 0.
Proof.
  revert j. induction l as [|y [|z l'] IH]; intros j Hj.
  - simpl in Hj. lia.
  - simpl in Hj. lia.
  - change (argmin (y :: z :: l'))
      with (if Qle_bool y (nth (argmin (z :: l')) (z :: l') 0)
            then 0%nat else S (argmin (z :: l'))) in *.
    destruct (Qle_bool y _) eqn:E.
    + lia.
    + apply Qle_bool_false in E.
      change (nth (argmin (z :: l')) (z :: l') 0 < nth j (y :: z :: l') 0).
      destruct j as [|j]; [exact E|].
      change (nth (argmin (z :: l')) (z :: l') 0 < nth j (z :: l') 0).
      apply IH. lia.
Qed.

Lemma argmax_first (l : list Q) (j : nat) :
  (j < argmax l)%nat -> nth j l 0 < nth (argmax l) l 0.
Proof.
  revert j. induction l as [|y [|z l'] IH]; intros j Hj.
  - simpl in Hj. lia.
  - simpl in Hj. lia.
  - change (argmax (y :: z :: l'))
      with (if Qle_bool (nth (argmax (z :: l')) (z :: l') 0) y
            then 0%nat else S (argmax (z :: l'))) in *.
    destruct (Qle_bool _ y) eqn:E.
    + lia.
    + apply Qle_bool_false in E.
      change (nth j (y :: z :: l') 0 < nth (argmax (z :: l')) (z :: l') 0).
      destruct j as [|j]; [exact E|].
      change (nth j (z :: l') 0 < nth (argmax (z :: l')) (z :: l') 0).
      apply IH. lia.
Qed.

(** ** Rows picked by key *)

Section PickByKey.

Variable key : Point -> Q.

Lemma nth_map_key (pts : list Point) (i : nat) :
  (i < List.length pts)%nat -> nth i (map key pts) 0 = key (nth i pts origin).
Proof.
  intros Hi. rewrite (nth_indep _ 0 (key origin)) by now rewrite length_map.
  apply map_nth.
Qed.

Lemma pick_argmin_in (pts : list Point) :
  pts <> [] -> In (nth (argmin (map key pts)) pts origin) pts.
Proof.
  intros Hne. apply nth_In. rewrite <- (length_map key).
  apply argmin_lt_length. destruct pts; [congruence | discriminate].
Qed.

Lemma pick_argmax_in (pts : list Point) :
  pts <> [] -> In (nth (argmax (map key pts)) pts origin) pts.
Proof.
  intros Hne. apply nth_In. rewrite <- (length_map key).
  apply argmax_lt_length. destruct pts; [congruence | discriminate].
Qed.

Lemma pick_argmin_le (pts : list Point) (p : Point) :
  In p pts -> key (nth (argmin (map key pts)) pts origin) <= key p.
Proof.
  intros Hin.
  assert (Hne : map key pts <> []) by (destruct pts; [destruct Hin | discriminate]).
  rewrite <- nth_map_key
    by (rewrite <- (length_map key); now apply argmin_lt_length).
  apply argmin_le. now apply in_map.
Qed.

Lemma pick_argmax_ge (pts : list Point) (p : Point) :
  In p pts -> key p <= key (nth (argmax (map key pts)) pts origin).
Proof.
  intros Hin.
  assert (Hne : map key pts <> []) by (destruct pts; [destruct Hin | discriminate]).
  rewrite <- nth_map_key
    by (rewrite <- (length_map key); now apply argmax_lt_length).
  apply argmax_ge. now apply in_map.
Qed.

(** A row whose key is strictly below every other row's is the one picked. *)
Lemma pick_argmin_strict (pts : list Point) (a : Point) :
  In a pts -> (forall p, In p pts -> p = a \/ key a < key p) ->
  nth (argmin (map key pts)) pts origin = a.
Proof.
  intros Ha Hstrict.
  assert (Hne : pts <> []) by (destruct pts; [destruct Ha | discriminate]).
  destruct (Hstrict _ (pick_argmin_in pts Hne)) as [E|Hlt]; [exact E|].
  exfalso. apply (Qlt_not_le _ _ Hlt). now apply pick_argmin_le.
Qed.

Lemma pick_argmax_strict (pts : list Point) (a : Point) :
  In a pts -> (forall p, In p pts -> p = a \/ key p < key a) ->
  nth (argmax (map key pts)) pts origin = a.
Proof.
  intros Ha Hstrict.
  assert (Hne : pts <> []) by (destruct pts; [destruct Ha | discriminate]).
  destruct (Hstrict _ (pick_argmax_in pts Hne)) as [E|Hlt]; [exact E|].
  exfalso. apply (Qlt_not_le _ _ Hlt). now apply pick_argmax_ge.
Qed.

End PickByKey.

(** ** [order_points] *)

Lemma order_points_eq (pts : list Point) :
  pts <> [] ->
  order_points pts
  = Some {| rect0 := nth (argmin (map psum pts)) pts origin;
            rect1 := nth (argmin (map (fun p => snd p - fst p) pts)) pts origin;
            rect2 := nth (argmax (map psum pts)) pts origin;
            rect3 := nth (argmax (map (fun p => snd p - fst p) pts)) pts origin |}.
Proof. destruct pts; [congruence | reflexivity]. Qed.

Lemma length4_nonempty {A} (l : list A) : List.length l = 4%nat -> l <> [].
Proof. destruct l; [discriminate | discriminate]. Qed.

Example order_points_square :
  order_points [(0, 0); (10, 0); (10, 10); (0, 10)]
  = Some (mkRect (0, 0) (10, 0) (10, 10) (0, 10)).
Proof. reflexivity. Qed.

Example order_points_rotated_input :
  order_points [(10, 10); (0, 10); (0, 0); (10, 0)]
  = Some (mkRect (0, 0) (10, 0) (10, 10) (0, 10)).
Proof. reflexivity. Qed.

(** A square standing on a corner: the left corner has both the least
    [x + y] (tied, first wins) and the greatest [y - x], so it is returned
    twice and the bottom corner is lost. *)
Example order_points_diamond :
  order_points [(0, 1); (1, 0); (2, 1); (1, 2)]
  = Some (mkRect (0, 1) (1, 0) (2, 1) (0, 1)).
Proof. reflexivity. Qed.

(** ** The destination rectangle of [four_point_transform] *)

Lemma sq_dist_nonneg (a b : Point) : 0 <= sq_dist a b.
Proof.
  unfold sq_dist.
  assert (H : forall x : Q, 0 <= x ^ 2).
  { intros x. assert (E : x ^ 2 == x * x) by (simpl; ring). rewrite E. nra. }
  pose proof (H (fst a - fst b)). pose proof (H (snd a - snd b)). lra.
Qed.

Lemma inject_Z_sq (k : Z) : inject_Z k ^ 2 == inject_Z (k * k).
Proof. rewrite inject_Z_mult. simpl. ring. Qed.

Lemma Qfloor_nonneg (v : Q) : 0 <= v -> (0 <= Qfloor v)%Z.
Proof. intros Hv. change 0%Z with (Qfloor 0). now apply Qfloor_resp_le. Qed.

(** [int_sqrt v] is the integer part of the square root of [v]. *)
Lemma int_sqrt_spec (v : Q) : 0 <= v -> is_floor_sqrt (int_sqrt v) v.
Proof.
  intros Hv. unfold is_floor_sqrt, int_sqrt.
  pose proof (Qfloor_nonneg v Hv) as Hn.
  pose proof (Z.sqrt_spec _ Hn) as [Hlo Hhi].
  pose proof (Z.sqrt_nonneg (Qfloor v)) as Hk.
  set (k := Z.sqrt (Qfloor v)) in *.
  split; [exact Hk|]. split.
  - rewrite inject_Z_sq. eapply Qle_trans; [|apply Qfloor_le].
    rewrite <- Zle_Qle. exact Hlo.
  - eapply Qlt_le_trans; [apply Qlt_floor|].
    assert (E : (inject_Z k + 1) ^ 2 == inject_Z ((k + 1) * (k + 1))).
    { rewrite inject_Z_mult, inject_Z_plus. simpl. ring. }
    rewrite E. rewrite <- Zle_Qle. lia.
Qed.

(** The integer part of a square root is unique. *)
Lemma is_floor_sqrt_unique (k k' : Z) (v : Q) :
  is_floor_sqrt k v -> is_floor_sqrt k' v -> k = k'.
Proof.
  intros (Hk & Hlo & Hhi) (Hk' & Hlo' & Hhi').
  assert (E : forall z, (inject_Z z + 1) ^ 2 == inject_Z ((z + 1) * (z + 1))).
  { intros z. rewrite inject_Z_mult, inject_Z_plus. simpl. ring. }
  rewrite inject_Z_sq in Hlo, Hlo'. rewrite E in Hhi, Hhi'.
  pose proof (Qle_lt_trans _ _ _ Hlo Hhi') as H1.
  pose proof (Qle_lt_trans _ _ _ Hlo' Hhi) as H2.
  rewrite <- Zlt_Qlt in H1, H2. nia.
Qed.


Lemma four_point_transform_eq (cv : OpenCV) (image : Image cv) (pts : list Point) :
  pts <> [] ->
  exists rect,
    order_points pts = Some rect /\
    four_point_transform cv image pts
    = Some (warpPerspective cv image
              (getPerspectiveTransform cv rect (dst_rect (dest_size rect)))
              (dest_size rect)).
Proof.
  intros Hne. eexists. split; [now apply order_points_eq|].
  unfold four_point_transform. rewrite order_points_eq by exact Hne.
  reflexivity.
Qed.



(** ** Ranking and the quadrilateral selector *)

Section Ranking.

Context {A : Type} (key : A -> Q).

Lemma insert_desc_perm (c : A) (l : list A) :
  Permutation (insert_desc key c l) (c :: l).
Proof.
  induction l as [|d l' IH]; simpl.
  - apply Permutation_refl.
  - destruct (Qle_bool (key d) (key c)).
    + apply Permutation_refl.
    + eapply perm_trans; [apply perm_skip, IH | apply perm_swap].
Qed.

Lemma sorted_reverse_perm (l : list A) : Permutation (sorted_reverse key l) l.
Proof.
  induction l as [|c l' IH]; simpl.
  - apply perm_nil.
  - eapply perm_trans; [apply insert_desc_perm | now apply perm_skip].
Qed.

Lemma insert_desc_sorted (c : A) (l : list A) :
  StronglySorted (ranks_before key) l ->
  StronglySorted (ranks_before key) (insert_desc key c l).
Proof.
  induction 1 as [|d l' Hs IH Hd]; simpl.
  - constructor; constructor.
  - destruct (Qle_bool (key d) (key c)) eqn:E.
    + apply Qle_bool_iff in E.
      constructor; [now constructor|].
      constructor; [exact E|].
      eapply Forall_impl; [|exact Hd].
      intros x Hx. unfold ranks_before in *. eapply Qle_trans; eassumption.
    + apply Qle_bool_false in E.
      constructor; [exact IH|].
      eapply Permutation_Forall.
      * apply Permutation_sym, insert_desc_perm.
      * constructor; [|exact Hd]. unfold ranks_before. now apply Qlt_le_weak.
Qed.

Lemma sorted_reverse_sorted (l : list A) :
  StronglySorted (ranks_before key) (sorted_reverse key l).
Proof.
  induction l as [|c l' IH]; simpl.
  - constructor.
  - now apply insert_desc_sorted.
Qed.

(** In a ranked list, whatever is cut off after the first [n] entries does
    not rank above any of the entries kept. *)
Lemma sorted_firstn_skipn (n : nat) (l : list A) :
  StronglySorted (ranks_before key) l ->
  forall a b, In a (firstn n l) -> In b (skipn n l) -> (ranks_before key) a b.
Proof.
  intros Hs. revert n. induction Hs as [|d l' Hs IH Hd]; intros n a b Ha Hb.
  - rewrite firstn_nil in Ha. destruct Ha.
  - destruct n as [|n]; simpl in Ha, Hb; [destruct Ha|].
    destruct Ha as [<-|Ha].
    + rewrite Forall_forall in Hd. apply Hd.
      rewrite <- (firstn_skipn n l'). apply in_or_app. now right.
    + now apply (IH n).
Qed.

End Ranking.

(** Equal keys keep the order of the input, as in Python. *)
Example sorted_reverse_stable :
  sorted_reverse (fun p : Z * Z => inject_Z (fst p))
    [(1, 10); (2, 20); (1, 30); (2, 40)]%Z
  = [(2, 20); (2, 40); (1, 10); (1, 30)]%Z.
Proof. reflexivity. Qed.

Section Selector.

Variable cv : OpenCV.

Lemma find_screenCnt_cons (c : Contour) (rest : list Contour) :
  find_screenCnt cv (c :: rest)
  = if Nat.eqb (List.length (simplified cv c)) 4 then Some (simplified cv c)
    else find_screenCnt cv rest.
Proof. reflexivity. Qed.

(** The loop stops at the first contour that simplifies to four vertices:
    what comes after it has no influence. *)
Lemma find_screenCnt_first (pre post : list Contour) (c : Contour) :
  Forall (not_quad cv) pre -> List.length (simplified cv c) = 4%nat ->
  find_screenCnt cv (pre ++ c :: post) = Some (simplified cv c).
Proof.
  intros Hpre Hc. induction Hpre as [|d pre Hd Hpre IH].
  - simpl app. rewrite find_screenCnt_cons, Hc. reflexivity.
  - simpl app. rewrite find_screenCnt_cons.
    apply Nat.eqb_neq in Hd. rewrite Hd. exact IH.
Qed.

Lemma find_screenCnt_spec (cnts : list Contour) :
  match find_screenCnt cv cnts with
  | Some screenCnt =>
      exists pre c post,
        cnts = pre ++ c :: post /\ Forall (not_quad cv) pre /\
        List.length (simplified cv c) = 4%nat /\ screenCnt = simplified cv c
  | None => Forall (not_quad cv) cnts
  end.
Proof.
  induction cnts as [|c rest IH].
  - constructor.
  - rewrite find_screenCnt_cons.
    destruct (Nat.eqb (List.length (simplified cv c)) 4) eqn:E.
    + apply Nat.eqb_eq in E. exists [], c, rest. repeat split; auto.
    + apply Nat.eqb_neq in E.
      destruct (find_screenCnt cv rest) as [q|].
      * destruct IH as (pre & c' & post & -> & Hpre & Hc' & ->).
        exists (c :: pre), c', post. repeat split; auto.
      * now constructor.
Qed.


End Selector.

(** The photograph: the shadow is the largest contour but has six
    vertices; the sheet, second, is selected; the speck is never reached. *)
Example selector_photo :
  top5 (scene_cv files) (sc_curves photo) = [shadow; sheet; speck] /\
  find_screenCnt (scene_cv files) [shadow; sheet; speck] = Some sheet.
Proof. split; reflexivity. Qed.

(** ** [scan_document] *)

Section ScanDocument.

Variable cv : OpenCV.

Lemma ratio_nonzero (orig : Image cv) :
  fst (shape cv orig) <> 0%Z -> Qeq_bool (ratio_of cv orig) 0 = false.
Proof.
  intros Hrows. destruct (Qeq_bool (ratio_of cv orig) 0) eqn:E; [|reflexivity].
  apply Qeq_bool_eq in E. exfalso. apply Hrows.
  unfold ratio_of, Qeq, Qdiv in E. simpl in E. lia.
Qed.

Lemma find_screenCnt_none (cnts : list Contour) :
  Forall (not_quad cv) cnts -> find_screenCnt cv cnts = None.
Proof.
  induction 1 as [|c rest Hc Hrest IH]; [reflexivity|].
  rewrite find_screenCnt_cons. apply Nat.eqb_neq in Hc. now rewrite Hc.
Qed.

Lemma find_screenCnt_length (cnts : list Contour) (screenCnt : Contour) :
  find_screenCnt cv cnts = Some screenCnt -> List.length screenCnt = 4%nat.
Proof.
  intros H. pose proof (find_screenCnt_spec cv cnts) as Hs. rewrite H in Hs.
  destruct Hs as (pre & c & post & _ & _ & Hc & ->). exact Hc.
Qed.

(** [scan_document] once the file has been read and has rows. *)
Lemma scan_document_eq (path : string) (orig : Image cv) :
  imread cv path = Some orig -> fst (shape cv orig) <> 0%Z ->
  scan_document cv path
  = match find_screenCnt cv (candidates cv orig) with
    | None => (Returned PyNone, [EvImread path; EvPrint no_document_message])
    | Some screenCnt =>
        match four_point_transform cv orig (scale (ratio_of cv orig) screenCnt) with
        | None => (Raised ValueError, [EvImread path])
        | Some warped =>
            (Returned
               (PyPair (working_copy cv orig (ratio_of cv orig))
                  (adaptiveThreshold_GAUSSIAN_BINARY cv
                     (cvtColor_BGR2GRAY cv warped) 255 11 2)),
             [EvImread path])
        end
    end.
Proof.
  intros Hread Hrows. unfold scan_document. rewrite Hread. cbv zeta.
  fold (ratio_of cv orig). rewrite (ratio_nonzero orig Hrows).
  fold (candidates cv orig).
  destruct (find_screenCnt cv (candidates cv orig)) as [screenCnt|];
    [|reflexivity].
  destruct (four_point_transform cv orig _); reflexivity.
Qed.

(** Every run reads the file named by its argument, first, and nothing
    else; the only other event is the message of the no-document path. *)
Lemma scan_document_events (path : string) :
  snd (scan_document cv path) = [EvImread path] \/
  snd (scan_document cv path) = [EvImread path; EvPrint no_document_message].
Proof.
  unfold scan_document. destruct (imread cv path) as [orig|]; [|now left].
  cbv zeta. destruct (Qeq_bool _ 0); [now left|].
  destruct (find_screenCnt cv _) as [screenCnt|]; [|now right].
  destruct (four_point_transform cv orig _); now left.
Qed.

End ScanDocument.




(** C9, as the specification states it, fails.  The argument of
    [scan_document] is a path, the run reads that file, and what it returns
    depends on what the file system holds under the path: a picture of a
    sheet, a blank picture, or nothing. *)
Lemma scan_document_reads_file_counterexample :
  In (EvImread "blank.png") (snd (scan_document (scene_cv files) "blank.png")) /\
  fst (scan_document (scene_cv files) "blank.png") = Returned PyNone /\
  fst (scan_document (scene_cv files) "missing.png") = Raised AttributeError /\
  fst (scan_document (scene_cv files) "sample_images/dollar_bill.JPG")
  <> Returned PyNone /\
  fst (scan_document (scene_cv files_clutter) "sample_images/dollar_bill.JPG")
  = Returned PyNone.
Proof.
  split; [left; reflexivity|]. split; [reflexivity|]. split; [reflexivity|].
  split; [discriminate | reflexivity].
Qed.

(** C9, amended.  [scan_document] takes the path of an image file as its
    only input.  Every run first reads exactly that file through
    [cv2.imread]; it reads no other file and writes none, and the only other
    thing it does to the outside is to print the no-document line. *)
Theorem scan_document_reads_its_path (cv : OpenCV) (path : string) :
  exists rest,
    snd (scan_document cv path) = EvImread path :: rest /\
    (forall p, ~ In (EvImread p) rest) /\
    (rest = [] \/ rest = [EvPrint no_document_message]).
Proof.
  destruct (scan_document_events cv path) as [E|E]; rewrite E.
  - exists []. split; [reflexivity|]. split; [intros p []|now left].
  - exists [EvPrint no_document_message]. split; [reflexivity|].
    split; [|now right]. intros p [H|[]]. discriminate.
Qed.

(** The [__main__] cell on the sample photograph and on the cluttered
    picture. *)
Example main_photo :
  main (scene_cv files)
  = (Returned tt, [EvImread "sample_images/dollar_bill.JPG"; EvShow]).
Proof. reflexivity. Qed.

Example main_clutter :
  main (scene_cv files_clutter)
  = (Raised TypeError,
     [EvImread "sample_images/dollar_bill.JPG";
      EvPrint "No document detected. Please try another image."]).
Proof. reflexivity. Qed.

(** ** The binarizer *)

Lemma length_mapi_from {A B} (f : nat -> A -> B) (s : nat) (l : list A) :
  List.length (mapi_from f s l) = List.length l.
Proof.
  revert s. induction l as [|x l' IH]; intros s; simpl; [reflexivity|].
  now rewrite IH.
Qed.

Lemma nth_mapi_from {A B} (f : nat -> A -> B) (s k : nat) (l : list A) (d : A) (d' : B) :
  (k < List.length l)%nat ->
  nth k (mapi_from f s l) d' = f (s + k)%nat (nth k l d).
Proof.
  revert s k. induction l as [|x l' IH]; intros s k Hk; simpl in Hk; [lia|].
  destruct k as [|k]; simpl.
  - now rewrite Nat.add_0_r.
  - rewrite IH by lia. f_equal. lia.
Qed.

Ltac binary_image :=
  unfold binary; repeat first [apply Forall_cons | apply Forall_nil]; auto.

(** Whatever coordinates are read, a binary image yields 0 or 255. *)
Lemma pixel_binary (img : GrayImage) (i j : Z) :
  binary img -> pixel img i j = 0%Z \/ pixel img i j = 255%Z.
Proof.
  intros Hbin. unfold pixel.
  set (row := nth (clamp (List.length img) i) img []).
  assert (Hrow : Forall (fun v => v = 0%Z \/ v = 255%Z) row).
  { subst row. destruct (nth_in_or_default (clamp (List.length img) i) img [])
      as [Hin| -> ]; [|constructor].
    unfold binary in Hbin. rewrite Forall_forall in Hbin. now apply Hbin. }
  destruct (nth_in_or_default (clamp (List.length row) j) row 0%Z) as [Hin| -> ];
    [|now left].
  rewrite Forall_forall in Hrow. now apply Hrow.
Qed.

Section BinarizerFacts.

Variable g : Z -> Q.
Hypothesis g_nonneg : Forall (fun z => 0 <= g z) offsets.
Hypothesis total_pos : 0 < weight_total g.

Lemma weight_nonneg (d : Z * Z) : In d window -> 0 <= weight g d.
Proof.
  destruct d as [a b]. unfold window. rewrite in_prod_iff. intros [Ha Hb].
  rewrite Forall_forall in g_nonneg.
  unfold weight. cbn [fst snd].
  apply Qmult_le_0_compat; now apply g_nonneg.
Qed.

End BinarizerFacts.

Lemma binomial11_nonneg : Forall (fun z => 0 <= binomial11 z) offsets.
Proof. repeat constructor; discriminate. Qed.

Lemma binomial11_total : 0 < weight_total binomial11.
Proof. reflexivity. Qed.

(** * Further properties of the notebook's functions *)

(** ** [order_points] on quadrilaterals with four distinct extremes *)

(** When one point has strictly the least [x + y], one strictly the
    greatest, one strictly the greatest [x - y] and one strictly the least,
    these are the rows returned, wherever they stand in the input. *)
Lemma order_points_labelled (pts : list Point) (a b c d : Point) :
  Permutation pts [a; b; c; d] ->
  psum a < psum b -> psum a < psum c -> psum a < psum d ->
  psum b < psum c -> psum d < psum c ->
  pdiff a < pdiff b -> pdiff c < pdiff b -> pdiff d < pdiff b ->
  pdiff d < pdiff a -> pdiff d < pdiff c ->
  order_points pts = Some (mkRect a b c d).
Proof.
  intros Hperm Hab Hac Had Hbc Hdc Hba Hbc' Hbd Hda Hdc'.
  assert (Hne : pts <> []).
  { intros ->. apply Permutation_length in Hperm. discriminate. }
  assert (Hin : forall p, In p pts -> p = a \/ p = b \/ p = c \/ p = d).
  { intros p Hp. apply (Permutation_in _ Hperm) in Hp. simpl in Hp.
    intuition congruence. }
  assert (Hmem : forall p, In p [a; b; c; d] -> In p pts).
  { intros p Hp. now apply (Permutation_in _ (Permutation_sym Hperm)). }
  unfold pdiff in *.
  rewrite order_points_eq by exact Hne. f_equal. f_equal.
  - apply (pick_argmin_strict psum).
    + apply Hmem. simpl. auto.
    + intros p Hp.
      destruct (Hin p Hp) as [ -> | [ -> | [ -> | -> ] ] ]; auto.
  - apply (pick_argmin_strict (fun p => snd p - fst p)).
    + apply Hmem. simpl. auto.
    + intros p Hp.
      destruct (Hin p Hp) as [ -> | [ -> | [ -> | -> ] ] ];
        [right; lra | now left | right; lra ..].
  - apply (pick_argmax_strict psum).
    + apply Hmem. simpl. auto.
    + intros p Hp.
      destruct (Hin p Hp) as [ -> | [ -> | [ -> | -> ] ] ]; auto.
  - apply (pick_argmax_strict (fun p => snd p - fst p)).
    + apply Hmem. simpl. auto.
    + intros p Hp.
      destruct (Hin p Hp) as [ -> | [ -> | [ -> | -> ] ] ];
        [right; lra .. | now left].
Qed.

Ltac corner_arith :=
  unfold near, psum, pdiff in *; cbn [fst snd] in *; lra.

(** On a roughly axis-aligned quadrilateral the rows returned are the
    points near the four corners, each at its corner's place. *)
Lemma order_points_near_corners (pts : list Point)
    (x0 y0 x1 y1 eps : Q) (a b c d : Point) :
  Permutation pts [a; b; c; d] ->
  0 <= eps -> 4 * eps < x1 - x0 -> 4 * eps < y1 - y0 ->
  near eps a (x0, y0) -> near eps b (x1, y0) ->
  near eps c (x1, y1) -> near eps d (x0, y1) ->
  order_points pts = Some (mkRect a b c d).
Proof.
  intros Hperm Heps Hw Hh Ha Hb Hc Hd.
  apply order_points_labelled; [exact Hperm | corner_arith ..].
Qed.


Lemma sheet_points_perm :
  Permutation [(19, 31); (0, 30); (1, 1); (20, 0)]
              [(1, 1); (20, 0); (19, 31); (0, 30)].
Proof.
  apply Permutation_sym.
  apply (perm_trans (l' := [(1, 1); (19, 31); (20, 0); (0, 30)])).
  - apply perm_skip. apply perm_swap.
  - apply (perm_trans (l' := [(19, 31); (1, 1); (20, 0); (0, 30)])).
    + apply perm_swap.
    + apply perm_skip.
      apply (perm_trans (l' := [(1, 1); (0, 30); (20, 0)])).
      * apply perm_skip. apply perm_swap.
      * apply perm_swap.
Qed.

Lemma sheet_points_aligned :
  roughly_axis_aligned [(19, 31); (0, 30); (1, 1); (20, 0)].
Proof.
  exists 0, 0, 20, 30, 1, (1, 1), (20, 0), (19, 31), (0, 30).
  split; [exact sheet_points_perm|].
  unfold near. cbn [fst snd]. repeat split; lra.
Qed.




Lemma inject_Z_pos (k : Z) : (0 < k)%Z -> 0 < inject_Z k.
Proof. intros H. change 0 with (inject_Z 0). now rewrite <- Zlt_Qlt. Qed.



(** ** Ranking: ties and the cut at five *)

(** X11.  The ranking is stable: contours of equal area keep the order in
    which they were found.  For every area [k], the contours of area [k]
    appear in the ranked list in the same order as in the input. *)
Theorem sorted_reverse_stable_ties {A : Type} (key : A -> Q) (l : list A) (k : Q) :
  filter (fun c => Qeq_bool (key c) k) (sorted_reverse key l)
  = filter (fun c => Qeq_bool (key c) k) l.
Proof.
  assert (Hins : forall c t,
            filter (fun c => Qeq_bool (key c) k) (insert_desc key c t)
            = filter (fun c => Qeq_bool (key c) k) (c :: t)).
  { intros c t. induction t as [|d t IH]; [reflexivity|].
    simpl insert_desc. destruct (Qle_bool (key d) (key c)) eqn:E; [reflexivity|].
    apply Qle_bool_false in E.
    simpl filter at 1. rewrite IH. simpl.
    destruct (Qeq_bool (key c) k) eqn:Ec; [|reflexivity].
    destruct (Qeq_bool (key d) k) eqn:Ed; [|reflexivity].
    apply Qeq_bool_eq in Ec, Ed. rewrite Ec, Ed in E.
    exfalso. exact (Qlt_irrefl _ E). }
  induction l as [|c l IH]; [reflexivity|].
  simpl sorted_reverse. rewrite Hins. simpl. now rewrite IH.
Qed.

(** X12.  The candidates are contours that were found, as many as there
    are up to five; with five contours or fewer none is dropped. *)
Theorem top5_length_incl (cv : OpenCV) (cnts : list Contour) :
  List.length (top5 cv cnts) = Nat.min 5 (List.length cnts) /\
  incl (top5 cv cnts) cnts /\
  ((List.length cnts <= 5)%nat -> Permutation (top5 cv cnts) cnts).
Proof.
  pose proof (sorted_reverse_perm (contourArea cv) cnts) as Hperm.
  pose proof (Permutation_length Hperm) as Hlen.
  unfold top5. split; [|split].
  - rewrite length_firstn. now rewrite Hlen.
  - intros c Hc. apply (Permutation_in _ Hperm).
    rewrite <- (firstn_skipn 5 (sorted_reverse (contourArea cv) cnts)).
    apply in_or_app. now left.
  - intros H5. rewrite firstn_all2 by lia. exact Hperm.
Qed.

(** ** Outcomes of [scan_document] and of the [__main__] cell *)

Section Outcomes.

Variable cv : OpenCV.

(** X14.  The no-document line is printed exactly when [None] is returned:
    a run that returns the pair or raises prints nothing. *)
Theorem scan_document_prints_iff_none (path : string) :
  In (EvPrint no_document_message) (snd (scan_document cv path))
  <-> fst (scan_document cv path) = Returned PyNone.
Proof.
  unfold scan_document. destruct (imread cv path) as [orig|].
  - cbv zeta. destruct (Qeq_bool _ 0).
    + simpl. split; [intros [H|[]]; discriminate H | discriminate].
    + destruct (find_screenCnt cv _) as [screenCnt|].
      * destruct (four_point_transform cv orig _); simpl;
          (split; [intros [H|[]]; discriminate H | discriminate]).
      * simpl. split; [reflexivity | auto].
  - simpl. split; [intros [H|[]]; discriminate H | discriminate].
Qed.

Lemma find_screenCnt_exists (cnts : list Contour) :
  Exists (fun c => List.length (simplified cv c) = 4%nat) cnts ->
  exists screenCnt, find_screenCnt cv cnts = Some screenCnt.
Proof.
  intros Hex. pose proof (find_screenCnt_spec cv cnts) as Hs.
  destruct (find_screenCnt cv cnts) as [q|]; [now exists q|].
  exfalso. apply Exists_exists in Hex. destruct Hex as (c & Hin & Hc).
  rewrite Forall_forall in Hs. exact (Hs c Hin Hc).
Qed.


End Outcomes.



(** * The notebook as NumPy computes it *)

(** ** Rounding *)

Lemma pow2_pos (e : Z) : 0 < pow2 e.
Proof. apply Qpower_0_lt. reflexivity. Qed.

Lemma pow2_plus (a b : Z) : pow2 (a + b) == pow2 a * pow2 b.
Proof. apply Qpower_plus. discriminate. Qed.

Lemma pow2_succ (e : Z) : pow2 (e + 1) == 2 * pow2 e.
Proof. rewrite pow2_plus. change (pow2 1) with 2. ring. Qed.

Lemma pow2_nonneg_Z (e : Z) : (0 <= e)%Z -> pow2 e == inject_Z (2 ^ e).
Proof. intros H. unfold pow2. now rewrite Zpower_Qpower. Qed.

(** [ilog2] does not overshoot. *)
Lemma ilog2_lower (a : Q) : 0 < a -> pow2 (ilog2 a) <= a.
Proof.
  intros Ha. unfold ilog2.
  set (e0 := (Z.log2 (Qnum a) - Z.log2 (Z.pos (Qden a)))%Z).
  destruct (Qle_bool (pow2 e0) a) eqn:E; [now apply Qle_bool_iff|].
  destruct a as [n d]. cbn [Qnum Qden] in *.
  assert (Hn : (0 < n)%Z) by (unfold Qlt in Ha; simpl in Ha; lia).
  pose proof (Z.log2_spec n Hn) as [Hlo _].
  pose proof (Z.log2_spec (Z.pos d) ltac:(lia)) as [_ Hhi].
  pose proof (Z.log2_nonneg n) as Ln. pose proof (Z.log2_nonneg (Z.pos d)) as Ld.
  replace (e0 - 1)%Z with (Z.log2 n + - (Z.succ (Z.log2 (Z.pos d))))%Z
    by (subst e0; lia).
  rewrite pow2_plus. unfold pow2 at 2. rewrite Qpower_opp.
  fold (pow2 (Z.succ (Z.log2 (Z.pos d)))).
  rewrite !pow2_nonneg_Z by lia.
  set (P := (2 ^ Z.log2 n)%Z) in *.
  set (R := (2 ^ Z.succ (Z.log2 (Z.pos d)))%Z) in *.
  assert (HR : 0 < inject_Z R).
  { change 0 with (inject_Z 0). rewrite <- Zlt_Qlt. lia. }
  apply Qle_shift_div_r; [exact HR|].
  rewrite (Qmake_Qdiv n d).
  unfold Qdiv. rewrite <- Qmult_assoc, (Qmult_comm (/ _)), Qmult_assoc.
  apply Qle_shift_div_l.
  { change 0 with (inject_Z 0). rewrite <- Zlt_Qlt. lia. }
  rewrite <- !inject_Z_mult, <- Zle_Qle. nia.
Qed.

(** The nearest integer is within one half. *)
Lemma rne_bound (m : Q) :
  m - (1 # 2) <= inject_Z (rne m) /\ inject_Z (rne m) <= m + (1 # 2).
Proof.
  unfold rne. pose proof (Qfloor_le m) as Hlo. pose proof (Qlt_floor m) as Hhi.
  rewrite inject_Z_plus in Hhi. change (inject_Z 1) with 1 in Hhi.
  destruct (Qcompare_spec (m - inject_Z (Qfloor m)) (1 # 2)) as [E|E|E].
  - destruct (Z.even (Qfloor m)).
    + split; lra.
    + rewrite inject_Z_plus. change (inject_Z 1) with 1. split; lra.
  - split; lra.
  - rewrite inject_Z_plus. change (inject_Z 1) with 1. split; lra.
Qed.

(** Rounding moves a number by at most half a unit in its last place. *)
Lemma rnd_error (f : Format) (q : Q) :
  q - rnd_err f q <= rnd f q /\ rnd f q <= q + rnd_err f q.
Proof.
  unfold rnd, rnd_err.
  pose proof (pow2_pos (- prec f)) as Pp. pose proof (pow2_pos (emin f - 1)) as Pe.
  pose proof (Qabs_nonneg q) as Habs.
  destruct (Qeq_bool q 0) eqn:E0.
  { apply Qeq_bool_eq in E0. rewrite E0. change (Qabs 0) with 0. split; nra. }
  apply Qeq_bool_neq in E0.
  assert (Ha : 0 < Qabs q).
  { destruct (Qlt_le_dec 0 (Qabs q)) as [H|H]; [exact H|].
    exfalso. apply E0. apply Qabs_Qle_condition in H. lra. }
  set (a := Qabs q) in *.
  pose proof (ilog2_lower a Ha) as Hlog.
  set (e := ilog2 a) in *.
  set (u := Z.max (e - prec f + 1) (emin f)).
  pose proof (pow2_pos u) as Pu.
  pose proof (rne_bound (a / pow2 u)) as [Rlo Rhi].
  set (m := inject_Z (rne (a / pow2 u))) in *.
  assert (Hdiv : a / pow2 u * pow2 u == a) by (field; lra).
  set (x := a / pow2 u) in *.
  assert (Hu : pow2 u <= 2 * (a * pow2 (- prec f) + pow2 (emin f - 1))).
  { destruct (Z.max_spec (e - prec f + 1) (emin f)) as [[_ Eu]|[_ Eu]];
      fold u in Eu; rewrite Eu.
    - replace (emin f) with (emin f - 1 + 1)%Z at 1 by lia.
      rewrite pow2_succ. nra.
    - replace (e - prec f + 1)%Z with (e + - prec f + 1)%Z by lia.
      rewrite pow2_succ, pow2_plus. nra. }
  rewrite Qred_correct.
  destruct (Qle_bool 0 q) eqn:Es.
  - apply Qle_bool_iff in Es.
    assert (Eq : a == q) by (apply Qabs_pos; exact Es).
    split; nra.
  - assert (Hq : q < 0).
    { destruct (Qlt_le_dec q 0) as [H|H]; [exact H|].
      apply Qle_bool_iff in H. congruence. }
    assert (Eq : a == - q) by (apply Qabs_neg; lra).
    split; nra.
Qed.

(** A rounded square root is not negative. *)
Lemma fsqrt_nonneg (f : Format) (v : Q) : 0 <= fsqrt f v.
Proof.
  unfold fsqrt. destruct (Qle_bool v 0); [apply Qle_refl|].
  rewrite Qred_correct.
  set (u := Z.max (ilog2 v / 2 - prec f + 1) (emin f)).
  set (M := v / pow2 (2 * u)).
  pose proof (Z.sqrt_nonneg (Qfloor M)) as Hk.
  set (k := Z.sqrt (Qfloor M)) in *.
  apply Qmult_le_0_compat; [|apply Qlt_le_weak, pow2_pos].
  change 0 with (inject_Z 0). rewrite <- Zle_Qle.
  destruct (Qcompare M _); [destruct (Z.even k)| |]; lia.
Qed.

(** [int] of a float that is not negative is its integer part. *)
Lemma py_int_nonneg (q : Q) : 0 <= q -> py_int q = Qfloor q.
Proof. intros H. unfold py_int. apply Qle_bool_iff in H. now rewrite H. Qed.

(** Rounding at work: one tenth, a coordinate of a photograph of 480 rows,
    a root, a tie between subnormal numbers. *)
Example rnd_tenth : rnd binary64 (1 # 10) = 3602879701896397 # 36028797018963968.
Proof. vm_compute. reflexivity. Qed.

Example rnd_float32 : rnd binary32 (336 # 10) = 4404019 # 131072.
Proof. vm_compute. reflexivity. Qed.

Example fsqrt_58 : fsqrt binary32 58 = 7985717 # 1048576.
Proof. vm_compute. reflexivity. Qed.

Example rnd_subnormal_tie :
  rnd binary64 (3 * pow2 (-1075)) == pow2 (-1073) /\ rnd binary64 (pow2 (-1075)) = 0.
Proof. split; vm_compute; reflexivity. Qed.

(** ** [order_points] *)

Lemma np_order_points_eq (pts : list Point) :
  pts <> [] ->
  Np.order_points pts
  = Some {| rect0 := Np.astype_float32 (nth (argmin (map Np.fsum pts)) pts origin);
            rect1 := Np.astype_float32 (nth (argmin (map Np.fdiff pts)) pts origin);
            rect2 := Np.astype_float32 (nth (argmax (map Np.fsum pts)) pts origin);
            rect3 := Np.astype_float32 (nth (argmax (map Np.fdiff pts)) pts origin) |}.
Proof. destruct pts; [congruence | reflexivity]. Qed.

Lemma key_index_bounds (key : Point -> Q) (pts : list Point) :
  pts <> [] ->
  (argmin (map key pts) < List.length pts)%nat /\
  (argmax (map key pts) < List.length pts)%nat.
Proof.
  intros Hne.
  assert (Hm : map key pts <> []) by (destruct pts; [congruence | discriminate]).
  pose proof (argmin_lt_length _ Hm) as H1.
  pose proof (argmax_lt_length _ Hm) as H2.
  rewrite length_map in H1, H2. now split.
Qed.

Ltac in_range_list :=
  let p := fresh "p" in
  intros p; simpl; intros [<-|[<-|[<-|[<-|[]]]]];
  vm_compute; repeat split; discriminate.

(** C6, as the specification states it, fails.  In a photograph of 480
    rows the corners of the tilted sheet are multiplied by 0.96; the left
    and the top corner then have the same rounded [x + y], the first of them
    is returned as top-left, and it is not the one with the least sum:
    neither among the input points nor among the four returned points,
    where the bottom-left has a smaller [x + y].  Nor is it one of the
    input points, being rounded to [float32]. *)
Lemma np_order_points_sum_counterexample :
  exists rect,
    Np.order_points (Np.scale (Np.f64 (480 / 500)) tilted_sheet) = Some rect /\
    rect0 rect
    = Np.astype_float32 (nth 0 (Np.scale (Np.f64 (480 / 500)) tilted_sheet) origin) /\
    rect3 rect
    = Np.astype_float32 (nth 3 (Np.scale (Np.f64 (480 / 500)) tilted_sheet) origin) /\
    psum (nth 3 (Np.scale (Np.f64 (480 / 500)) tilted_sheet) origin)
    < psum (nth 0 (Np.scale (Np.f64 (480 / 500)) tilted_sheet) origin) /\
    psum (rect3 rect) < psum (rect0 rect) /\
    ~ In (rect0 rect) (Np.scale (Np.f64 (480 / 500)) tilted_sheet).
Proof.
  eexists. split; [vm_compute; reflexivity|]. cbn [rect0 rect3].
  split; [vm_compute; reflexivity|]. split; [vm_compute; reflexivity|].
  split; [vm_compute; reflexivity|]. split; [vm_compute; reflexivity|].
  vm_compute. intros [H|[H|[H|[H|[]]]]]; discriminate H.
Qed.

(** C6, amended.  For every input of four points in range, row 0 of the result
    (top-left) is the [float32] rounding of an input point whose [float64]
    sum [x + y] is least among the four input points' [float64] sums, and
    row 2 (bottom-right) the [float32] rounding of one whose [float64] sum
    is greatest. *)
Theorem np_order_points_sum_extremes (pts : list Point) :
  List.length pts = 4%nat ->
  Np.in_range pts ->
  exists (rect : Rect) (i0 i2 : nat),
    Np.order_points pts = Some rect /\
    (i0 < 4)%nat /\ (i2 < 4)%nat /\
    rect0 rect = Np.astype_float32 (nth i0 pts origin) /\
    rect2 rect = Np.astype_float32 (nth i2 pts origin) /\
    (forall p, In p pts -> Np.fsum (nth i0 pts origin) <= Np.fsum p) /\
    (forall p, In p pts -> Np.fsum p <= Np.fsum (nth i2 pts origin)).
Proof.
  intros Hlen _. pose proof (length4_nonempty _ Hlen) as Hne.
  destruct (key_index_bounds Np.fsum pts Hne) as [B0 B2]. rewrite Hlen in B0, B2.
  eexists. exists (argmin (map Np.fsum pts)), (argmax (map Np.fsum pts)).
  split; [now apply np_order_points_eq|]. cbn [rect0 rect2].
  repeat split; auto.
  - intros p Hp. now apply (pick_argmin_le Np.fsum).
  - intros p Hp. now apply (pick_argmax_ge Np.fsum).
Qed.

Lemma np_order_points_sum_extremes_witness :
  exists (rect : Rect) (i0 i2 : nat),
    Np.order_points receipt = Some rect /\
    (i0 < 4)%nat /\ (i2 < 4)%nat /\
    rect0 rect = Np.astype_float32 (nth i0 receipt origin) /\
    rect2 rect = Np.astype_float32 (nth i2 receipt origin) /\
    (forall p, In p receipt -> Np.fsum (nth i0 receipt origin) <= Np.fsum p) /\
    (forall p, In p receipt -> Np.fsum p <= Np.fsum (nth i2 receipt origin)).
Proof.
  apply (np_order_points_sum_extremes receipt); [reflexivity | in_range_list].
Defined.

(** C1, as the specification states it, fails: on the square of side 10
    the point returned as top-right is [(10, 0)] and the one returned as
    bottom-left is [(0, 10)], so top-right has the greatest [x - y], not the
    least, and [tr.x - tr.y <= bl.x - bl.y] is false. *)
Lemma np_order_points_diff_counterexample :
  exists rect,
    Np.order_points [(0, 0); (10, 0); (10, 10); (0, 10)] = Some rect /\
    rect1 rect = (10, 0) /\ rect3 rect = (0, 10) /\
    ~ pdiff (rect1 rect) <= pdiff (rect3 rect) /\
    ~ (forall p, In p [(0, 0); (10, 0); (10, 10); (0, 10)] ->
                 pdiff (rect1 rect) <= pdiff p).
Proof.
  eexists. split; [vm_compute; reflexivity|]. cbn [rect1 rect3].
  split; [reflexivity|]. split; [reflexivity|]. split.
  - unfold pdiff. cbn. intros H. revert H. apply Qlt_not_le. reflexivity.
  - intros H.
    assert (Hin : In (0, 10) [(0, 0); (10, 0); (10, 10); (0, 10)])
      by (simpl; auto).
    specialize (H _ Hin). unfold pdiff in H. cbn in H.
    revert H. apply Qlt_not_le. reflexivity.
Qed.

(** C1, amended.  [np.diff] along a row is [y - x]: for every input of
    four points in range, row 1 of the result (top-right) is the [float32] rounding
    of an input point whose [float64] difference [y - x] is least among the
    four input points' [float64] differences, and row 3 (bottom-left) the
    [float32] rounding of one whose [float64] difference [y - x] is
    greatest; so the rounded [y - x] of the point chosen as top-right is at
    most that of the point chosen as bottom-left. *)
Theorem np_order_points_diff_extremes (pts : list Point) :
  List.length pts = 4%nat ->
  Np.in_range pts ->
  exists (rect : Rect) (i1 i3 : nat),
    Np.order_points pts = Some rect /\
    (i1 < 4)%nat /\ (i3 < 4)%nat /\
    rect1 rect = Np.astype_float32 (nth i1 pts origin) /\
    rect3 rect = Np.astype_float32 (nth i3 pts origin) /\
    (forall p, In p pts -> Np.fdiff (nth i1 pts origin) <= Np.fdiff p) /\
    (forall p, In p pts -> Np.fdiff p <= Np.fdiff (nth i3 pts origin)) /\
    Np.fdiff (nth i1 pts origin) <= Np.fdiff (nth i3 pts origin).
Proof.
  intros Hlen _. pose proof (length4_nonempty _ Hlen) as Hne.
  destruct (key_index_bounds Np.fdiff pts Hne) as [B1 B3]. rewrite Hlen in B1, B3.
  eexists. exists (argmin (map Np.fdiff pts)), (argmax (map Np.fdiff pts)).
  split; [now apply np_order_points_eq|]. cbn [rect1 rect3].
  repeat split; auto.
  - intros p Hp. now apply (pick_argmin_le Np.fdiff).
  - intros p Hp. now apply (pick_argmax_ge Np.fdiff).
  - apply (pick_argmin_le Np.fdiff). now apply pick_argmax_in.
Qed.

Lemma np_order_points_diff_extremes_witness :
  exists (rect : Rect) (i1 i3 : nat),
    Np.order_points receipt = Some rect /\
    (i1 < 4)%nat /\ (i3 < 4)%nat /\
    rect1 rect = Np.astype_float32 (nth i1 receipt origin) /\
    rect3 rect = Np.astype_float32 (nth i3 receipt origin) /\
    (forall p, In p receipt -> Np.fdiff (nth i1 receipt origin) <= Np.fdiff p) /\
    (forall p, In p receipt -> Np.fdiff p <= Np.fdiff (nth i3 receipt origin)) /\
    Np.fdiff (nth i1 receipt origin) <= Np.fdiff (nth i3 receipt origin).
Proof.
  apply (np_order_points_diff_extremes receipt); [reflexivity | in_range_list].
Defined.

(** When one point has strictly the least rounded sum, one strictly the
    greatest, one strictly the least rounded difference and one strictly
    the greatest, their [float32] roundings are the rows returned. *)
Lemma np_order_points_labelled (pts : list Point) (a b c d : Point) :
  Permutation pts [a; b; c; d] ->
  Np.fsum a < Np.fsum b -> Np.fsum a < Np.fsum c -> Np.fsum a < Np.fsum d ->
  Np.fsum b < Np.fsum c -> Np.fsum d < Np.fsum c ->
  Np.fdiff b < Np.fdiff a -> Np.fdiff b < Np.fdiff c -> Np.fdiff b < Np.fdiff d ->
  Np.fdiff a < Np.fdiff d -> Np.fdiff c < Np.fdiff d ->
  Np.order_points pts
  = Some (mkRect (Np.astype_float32 a) (Np.astype_float32 b)
            (Np.astype_float32 c) (Np.astype_float32 d)).
Proof.
  intros Hperm Hab Hac Had Hbc Hdc Hba Hbc' Hbd Had' Hcd.
  assert (Hne : pts <> []).
  { intros ->. apply Permutation_length in Hperm. discriminate. }
  assert (Hin : forall p, In p pts -> p = a \/ p = b \/ p = c \/ p = d).
  { intros p Hp. apply (Permutation_in _ Hperm) in Hp. simpl in Hp.
    intuition congruence. }
  assert (Hmem : forall p, In p [a; b; c; d] -> In p pts).
  { intros p Hp. now apply (Permutation_in _ (Permutation_sym Hperm)). }
  rewrite np_order_points_eq by exact Hne. f_equal. f_equal; f_equal.
  - apply (pick_argmin_strict Np.fsum).
    + apply Hmem. simpl. auto.
    + intros p Hp.
      destruct (Hin p Hp) as [ -> | [ -> | [ -> | -> ] ] ]; auto.
  - apply (pick_argmin_strict Np.fdiff).
    + apply Hmem. simpl. auto.
    + intros p Hp.
      destruct (Hin p Hp) as [ -> | [ -> | [ -> | -> ] ] ]; auto.
  - apply (pick_argmax_strict Np.fsum).
    + apply Hmem. simpl. auto.
    + intros p Hp.
      destruct (Hin p Hp) as [ -> | [ -> | [ -> | -> ] ] ]; auto.
  - apply (pick_argmax_strict Np.fdiff).
    + apply Hmem. simpl. auto.
    + intros p Hp.
      destruct (Hin p Hp) as [ -> | [ -> | [ -> | -> ] ] ]; auto.
Qed.

(** Two numbers within [B] that are further apart than the rounding margin
    stay in their order when rounded to [float64]. *)
Lemma f64_lt (B s t : Q) :
  - B <= s -> s <= B -> - B <= t -> t <= B ->
  Np.rounding_margin B < t - s ->
  Np.f64 s < Np.f64 t.
Proof.
  intros Hs1 Hs2 Ht1 Ht2 Hm. unfold Np.rounding_margin in Hm.
  destruct (rnd_error binary64 s) as [_ Hs]. destruct (rnd_error binary64 t) as [Ht _].
  unfold rnd_err in Hs, Ht.
  change (pow2 (- prec binary64)) with (pow2 (-53)) in Hs, Ht.
  change (pow2 (emin binary64 - 1)) with (pow2 (-1075)) in Hs, Ht.
  assert (As : Qabs s <= B) by (apply Qabs_Qle_condition; split; assumption).
  assert (At : Qabs t <= B) by (apply Qabs_Qle_condition; split; assumption).
  pose proof (pow2_pos (-53)) as P53.
  assert (Es : Qabs s * pow2 (-53) <= B * pow2 (-53))
    by (apply Qmult_le_compat_r; [exact As | now apply Qlt_le_weak]).
  assert (Et : Qabs t * pow2 (-53) <= B * pow2 (-53))
    by (apply Qmult_le_compat_r; [exact At | now apply Qlt_le_weak]).
  unfold Np.f64. lra.
Qed.




(** X1.  [order_points] fails exactly on the empty array; on every other
    input in range, of any number of rows, each of the four rows it returns
    is the [float32] rounding of a row of the input. *)
Theorem np_order_points_rows_from_input (pts : list Point) :
  Np.in_range pts ->
  match Np.order_points pts with
  | None => pts = []
  | Some rect =>
      pts <> [] /\ incl (rect_rows rect) (map Np.astype_float32 pts)
  end.
Proof.
  intros _.
  destruct pts as [|p pts'] eqn:E; [reflexivity|]. rewrite <- E.
  assert (Hne : pts <> []) by (rewrite E; discriminate).
  rewrite (np_order_points_eq pts Hne). split; [exact Hne|].
  unfold rect_rows. cbn [rect0 rect1 rect2 rect3].
  intros q [<-|[<-|[<-|[<-|[]]]]]; apply in_map.
  - now apply pick_argmin_in.
  - now apply pick_argmin_in.
  - now apply pick_argmax_in.
  - now apply pick_argmax_in.
Qed.

Lemma np_order_points_rows_from_input_witness :
  match Np.order_points [(0, 1); (1, 0); (2, 1); (1, 2)] with
  | None => [(0, 1); (1, 0); (2, 1); (1, 2)] = @nil Point
  | Some rect =>
      [(0, 1); (1, 0); (2, 1); (1, 2)] <> @nil Point /\
      incl (rect_rows rect)
        (map Np.astype_float32 [(0, 1); (1, 0); (2, 1); (1, 2)])
  end.
Proof.
  apply (np_order_points_rows_from_input [(0, 1); (1, 0); (2, 1); (1, 2)]).
  in_range_list.
Defined.



(** ** Integers that a format holds exactly *)

Lemma rne_comp (x y : Q) : x == y -> rne x = rne y.
Proof.
  intros E. unfold rne. rewrite (Qfloor_comp _ _ E).
  assert (E' : x - inject_Z (Qfloor y) == y - inject_Z (Qfloor y))
    by (rewrite E; reflexivity).
  rewrite (Qcompare_comp _ _ E' _ _ (Qeq_refl (1 # 2))). reflexivity.
Qed.

Lemma rne_inject_Z (n : Z) : rne (inject_Z n) = n.
Proof.
  unfold rne. rewrite Qfloor_Z.
  destruct (Qcompare_spec (inject_Z n - inject_Z n) (1 # 2)) as [E|E|E];
    [exfalso; lra | reflexivity | exfalso; lra].
Qed.

Lemma Qred_inject_Z (k : Z) : Qred (inject_Z k) = inject_Z k.
Proof.
  unfold Qred, inject_Z.
  pose proof (Z.ggcd_gcd k 1) as Hg. pose proof (Z.ggcd_correct_divisors k 1) as Hd.
  destruct (Z.ggcd k 1) as [g [aa bb]]. simpl in *.
  rewrite Z.gcd_1_r in Hg. subst g. destruct Hd as [Ha Hb].
  assert (Ea : aa = k) by lia. assert (Eb : bb = 1%Z) by lia.
  rewrite Ea, Eb. reflexivity.
Qed.

Lemma pow2_le (a b : Z) : (a <= b)%Z -> pow2 a <= pow2 b.
Proof. intros H. apply Qpower_le_compat_l; [exact H|]. discriminate. Qed.

(** An integer below [2 ^ prec] in absolute value is a float of the
    format: rounding leaves it as it is. *)
Lemma rnd_small_int (f : Format) (k : Z) :
  (0 < prec f)%Z -> (emin f <= 0)%Z -> (Z.abs k < 2 ^ prec f)%Z ->
  rnd f (inject_Z k) = inject_Z k.
Proof.
  intros Hp He Hk. unfold rnd.
  destruct (Qeq_bool (inject_Z k) 0) eqn:E0.
  { apply Qeq_bool_eq in E0. unfold Qeq in E0. simpl in E0.
    assert (k = 0%Z) by lia. subst. reflexivity. }
  apply Qeq_bool_neq in E0.
  assert (Hk0 : k <> 0%Z) by (intros ->; apply E0; reflexivity).
  change (Qabs (inject_Z k)) with (inject_Z (Z.abs k)).
  set (a := inject_Z (Z.abs k)).
  assert (Ha : 0 < a).
  { subst a. change 0 with (inject_Z 0). rewrite <- Zlt_Qlt. lia. }
  pose proof (ilog2_lower a Ha) as Hlog.
  set (e := ilog2 a) in *.
  assert (Hep : (e < prec f)%Z).
  { destruct (Z_lt_le_dec e (prec f)) as [H|H]; [exact H|]. exfalso.
    pose proof (pow2_le _ _ H) as Hle.
    rewrite pow2_nonneg_Z in Hle by lia.
    assert (Hc : inject_Z (2 ^ prec f) <= a) by (eapply Qle_trans; eassumption).
    subst a. rewrite <- Zle_Qle in Hc. lia. }
  set (u := Z.max (e - prec f + 1) (emin f)).
  assert (Hu : (u <= 0)%Z) by (subst u; lia).
  set (n := (- u)%Z).
  assert (Hn : (0 <= n)%Z) by (subst n; lia).
  assert (Epu : pow2 u == / inject_Z (2 ^ n)).
  { replace u with (- n)%Z by (subst n; lia). unfold pow2. rewrite Qpower_opp.
    fold (pow2 n). now rewrite pow2_nonneg_Z. }
  assert (Hpn : 0 < inject_Z (2 ^ n)).
  { change 0 with (inject_Z 0). rewrite <- Zlt_Qlt. lia. }
  assert (Ex : a / pow2 u == inject_Z (Z.abs k * 2 ^ n)).
  { rewrite Epu, inject_Z_mult. subst a. field. lra. }
  rewrite (rne_comp _ _ Ex), rne_inject_Z.
  transitivity (Qred (inject_Z k)); [apply Qred_complete | apply Qred_inject_Z].
  rewrite Epu, inject_Z_mult.
  destruct (Qle_bool 0 (inject_Z k)) eqn:Es.
  - apply Qle_bool_iff in Es. change 0 with (inject_Z 0) in Es.
    rewrite <- Zle_Qle in Es. rewrite Z.abs_eq by lia. field. lra.
  - assert (Hneg : (k < 0)%Z).
    { destruct (Z_lt_le_dec k 0) as [H|H]; [exact H|].
      assert (Hq : 0 <= inject_Z k)
        by (change 0 with (inject_Z 0); now rewrite <- Zle_Qle).
      apply Qle_bool_iff in Hq. congruence. }
    rewrite Z.abs_neq by lia. rewrite inject_Z_opp. field. lra.
Qed.

Lemma f32_small_int (k : Z) :
  (-1 <= k < 2 ^ 24)%Z -> Np.f32 (inject_Z k) = inject_Z k.
Proof.
  intros Hk. apply rnd_small_int; cbn [prec emin binary32]; lia.
Qed.

(** ** The destination rectangle *)

Lemma np_distance_nonneg (scalar : Format) (square : Q -> Q) (a b : Point) :
  0 <= Np.distance scalar square a b.
Proof. apply fsqrt_nonneg. Qed.

Lemma np_dest_size_floor (scalar : Format) (square : Q -> Q) (rect : Rect) :
  Np.dest_size scalar square rect
  = (Z.max (Qfloor (Np.distance scalar square (rect2 rect) (rect3 rect)))
       (Qfloor (Np.distance scalar square (rect1 rect) (rect0 rect))),
     Z.max (Qfloor (Np.distance scalar square (rect1 rect) (rect2 rect)))
       (Qfloor (Np.distance scalar square (rect0 rect) (rect3 rect)))).
Proof.
  unfold Np.dest_size. cbv zeta.
  now rewrite !py_int_nonneg by apply np_distance_nonneg.
Qed.

(** The small sheet in photographs of 480 and of 600 rows: the [float32]
    corners are slightly closer than 24, respectively slightly closer than
    2.4, and the subtraction of the second rounds up to the next float. *)
Example np_dest_size_480 :
  option_map (Np.dest_size binary32 (Np.rounded_square binary32))
    (Np.order_points (Np.scale (Np.f64 (480 / 500)) small_sheet))
  = Some (23, 48)%Z /\
  option_map (Np.dest_size binary64 (Np.rounded_square binary64))
    (Np.order_points (Np.scale (Np.f64 (480 / 500)) small_sheet))
  = Some (23, 48)%Z.
Proof. split; vm_compute; reflexivity. Qed.

Example np_dest_size_600 :
  option_map (Np.dest_size binary32 (Np.rounded_square binary32))
    (Np.order_points (Np.scale (Np.f64 (600 / 500)) [(3, 3); (5, 3); (5, 43); (3, 43)]%Z))
  = Some (2, 48)%Z.
Proof. vm_compute. reflexivity. Qed.

(** C4, as the specification states it, fails.  For the corners
    [(0,0), (7,3), (7,10), (0,7)] both widths are the float nearest to the
    square root of 58, which lies strictly between 7.5 and 8: rounding to
    the nearest integer gives 8, the code's [int] gives 7, in either
    format of the scalar arithmetic. *)
Lemma np_dest_size_counterexample :
  exists rect,
    Np.order_points [(0, 0); (7, 3); (7, 10); (0, 7)] = Some rect /\
    (15 # 2) < Np.distance binary32 (Np.rounded_square binary32) (rect2 rect) (rect3 rect) /\
    Np.distance binary32 (Np.rounded_square binary32) (rect2 rect) (rect3 rect) < 8 /\
    Np.spec_dest_size binary32 (Np.rounded_square binary32) rect = (8, 7)%Z /\
    Np.dest_size binary32 (Np.rounded_square binary32) rect = (7, 7)%Z /\
    Np.spec_dest_size binary64 (Np.rounded_square binary64) rect = (8, 7)%Z /\
    Np.dest_size binary64 (Np.rounded_square binary64) rect = (7, 7)%Z.
Proof.
  eexists. split; [vm_compute; reflexivity|].
  repeat split; vm_compute; reflexivity.
Qed.

(** C4, amended.  The destination size is
    [maxWidth = max(int(widthA), int(widthB))] and
    [maxHeight = max(int(heightA), int(heightB))], where [int] takes the
    integer part of a float (it rounds down, not to the nearest integer)
    and [widthA], [widthB], [heightA], [heightB] are the floats that
    [np.sqrt] returns for the distances of [br] and [bl], [tr] and [tl],
    [tr] and [br], [tl] and [bl], computed from the [float32] corners
    (coordinates in range); for
    sizes up to [2^24] the image is warped by the transform that takes the
    ordered corners to [(0,0)], [(maxWidth-1,0)], [(maxWidth-1,maxHeight-1)],
    [(0,maxHeight-1)], into that size. *)
Theorem np_four_point_transform_dest (scalar : Format) (square : Q -> Q) (cv : OpenCV)
    (image : Image cv) (pts : list Point) (rect : Rect) :
  Np.in_range pts ->
  Np.order_points pts = Some rect ->
  let widthA := Np.distance scalar square (rect2 rect) (rect3 rect) in
  let widthB := Np.distance scalar square (rect1 rect) (rect0 rect) in
  let heightA := Np.distance scalar square (rect1 rect) (rect2 rect) in
  let heightB := Np.distance scalar square (rect0 rect) (rect3 rect) in
  let maxWidth := Z.max (Qfloor widthA) (Qfloor widthB) in
  let maxHeight := Z.max (Qfloor heightA) (Qfloor heightB) in
  (0 <= widthA /\ 0 <= widthB /\ 0 <= heightA /\ 0 <= heightB) /\
  Np.dest_size scalar square rect = (maxWidth, maxHeight) /\
  ((maxWidth <= 2 ^ 24)%Z -> (maxHeight <= 2 ^ 24)%Z ->
   Np.four_point_transform scalar square cv image pts
   = Some (warpPerspective cv image
             (getPerspectiveTransform cv rect
                (mkRect (0, 0) (inject_Z (maxWidth - 1), 0)
                   (inject_Z (maxWidth - 1), inject_Z (maxHeight - 1))
                   (0, inject_Z (maxHeight - 1))))
             (maxWidth, maxHeight))).
Proof.
  intros _ Hrect widthA widthB heightA heightB maxWidth maxHeight.
  split; [repeat split; apply np_distance_nonneg|].
  split; [apply np_dest_size_floor|].
  intros HW HH.
  assert (N1 : (0 <= Qfloor widthA)%Z) by (apply Qfloor_nonneg, np_distance_nonneg).
  assert (N2 : (0 <= Qfloor heightA)%Z) by (apply Qfloor_nonneg, np_distance_nonneg).
  unfold Np.four_point_transform. rewrite Hrect. cbv zeta.
  rewrite np_dest_size_floor.
  fold widthA widthB heightA heightB. fold maxWidth maxHeight.
  unfold Np.dst_rect.
  rewrite !f32_small_int by lia. reflexivity.
Qed.

Lemma np_four_point_transform_dest_witness :
  let rect := mkRect (0, 0) (7, 3) (7, 10) (0, 7) in
  let widthA := Np.distance binary32 (Np.rounded_square binary32) (rect2 rect) (rect3 rect) in
  let widthB := Np.distance binary32 (Np.rounded_square binary32) (rect1 rect) (rect0 rect) in
  let heightA := Np.distance binary32 (Np.rounded_square binary32) (rect1 rect) (rect2 rect) in
  let heightB := Np.distance binary32 (Np.rounded_square binary32) (rect0 rect) (rect3 rect) in
  let maxWidth := Z.max (Qfloor widthA) (Qfloor widthB) in
  let maxHeight := Z.max (Qfloor heightA) (Qfloor heightB) in
  (0 <= widthA /\ 0 <= widthB /\ 0 <= heightA /\ 0 <= heightB) /\
  Np.dest_size binary32 (Np.rounded_square binary32) rect = (maxWidth, maxHeight) /\
  (Z.le maxWidth (2 ^ 24) -> Z.le maxHeight (2 ^ 24) ->
   Np.four_point_transform binary32 (Np.rounded_square binary32) (scene_cv files) photo
     [(0, 0); (7, 3); (7, 10); (0, 7)]
   = Some (warpPerspective (scene_cv files) photo
             (getPerspectiveTransform (scene_cv files) rect
                (mkRect (0, 0) (inject_Z (maxWidth - 1), 0)
                   (inject_Z (maxWidth - 1), inject_Z (maxHeight - 1))
                   (0, inject_Z (maxHeight - 1))))
             (maxWidth, maxHeight))).
Proof.
  apply (np_four_point_transform_dest binary32 (Np.rounded_square binary32) (scene_cv files) photo
           [(0, 0); (7, 3); (7, 10); (0, 7)]
           (mkRect (0, 0) (7, 3) (7, 10) (0, 7))).
  - in_range_list.
  - vm_compute. reflexivity.
Defined.

(** X5.  [maxWidth] and [maxHeight] are never negative, and the
    destination is empty in one direction exactly when both distances that
    the code computes in that direction are below 1: [maxWidth] is 0 if and
    only if [widthA < 1] and [widthB < 1], [maxHeight] is 0 if and only if
    [heightA < 1] and [heightB < 1]. *)
Theorem np_dest_size_zero_iff (scalar : Format) (square : Q -> Q) (rect : Rect) :
  Np.in_range (rect_rows rect) ->
  let maxWidth := fst (Np.dest_size scalar square rect) in
  let maxHeight := snd (Np.dest_size scalar square rect) in
  (0 <= maxWidth)%Z /\ (0 <= maxHeight)%Z /\
  (maxWidth = 0%Z <->
   Np.distance scalar square (rect2 rect) (rect3 rect) < 1 /\
   Np.distance scalar square (rect1 rect) (rect0 rect) < 1) /\
  (maxHeight = 0%Z <->
   Np.distance scalar square (rect1 rect) (rect2 rect) < 1 /\
   Np.distance scalar square (rect0 rect) (rect3 rect) < 1).
Proof.
  intros _. rewrite np_dest_size_floor. cbn [fst snd].
  assert (F : forall w : Q, 0 <= w ->
            (0 <= Qfloor w)%Z /\ (Qfloor w = 0%Z <-> w < 1)).
  { intros w Hw. pose proof (Qfloor_nonneg w Hw) as H0. split; [exact H0|]. split.
    - intros E. pose proof (Qlt_floor w) as H. rewrite E in H. exact H.
    - intros H1. pose proof (Qfloor_le w) as Hle.
      assert (Hlt : inject_Z (Qfloor w) < inject_Z 1)
        by (change (inject_Z 1) with 1; lra).
      rewrite <- Zlt_Qlt in Hlt. lia. }
  destruct (F _ (np_distance_nonneg scalar square (rect2 rect) (rect3 rect))) as [N1 Z1].
  destruct (F _ (np_distance_nonneg scalar square (rect1 rect) (rect0 rect))) as [N2 Z2].
  destruct (F _ (np_distance_nonneg scalar square (rect1 rect) (rect2 rect))) as [N3 Z3].
  destruct (F _ (np_distance_nonneg scalar square (rect0 rect) (rect3 rect))) as [N4 Z4].
  split; [lia|]. split; [lia|]. split; split.
  - intros E. split; [apply Z1 | apply Z2]; lia.
  - intros [H1 H2]. apply Z1 in H1. apply Z2 in H2. lia.
  - intros E. split; [apply Z3 | apply Z4]; lia.
  - intros [H1 H2]. apply Z3 in H1. apply Z4 in H2. lia.
Qed.

Lemma np_dest_size_zero_iff_witness :
  let rect := mkRect (3, 3) (3, 3) (3, 3) (3, 3) in
  let maxWidth := fst (Np.dest_size binary32 (Np.rounded_square binary32) rect) in
  let maxHeight := snd (Np.dest_size binary32 (Np.rounded_square binary32) rect) in
  (0 <= maxWidth)%Z /\ (0 <= maxHeight)%Z /\
  (maxWidth = 0%Z <->
   Np.distance binary32 (Np.rounded_square binary32) (rect2 rect) (rect3 rect) < 1 /\
   Np.distance binary32 (Np.rounded_square binary32) (rect1 rect) (rect0 rect) < 1) /\
  (maxHeight = 0%Z <->
   Np.distance binary32 (Np.rounded_square binary32) (rect1 rect) (rect2 rect) < 1 /\
   Np.distance binary32 (Np.rounded_square binary32) (rect0 rect) (rect3 rect) < 1).
Proof.
  apply (np_dest_size_zero_iff binary32 (Np.rounded_square binary32)
           (mkRect (3, 3) (3, 3) (3, 3) (3, 3))).
  in_range_list.
Defined.

(** ** [scan_document] *)

(** In a photograph of 1080 by 1080 the quotient [1080 / 2.16] rounds to
    the float just below 500, and [int] makes 499 columns of it; a
    photograph of 1000 rows and one column would get none. *)
Example np_working_width_1080 :
  py_int (Np.f64 (1080 / Np.f64 (1080 / 500))) = 499%Z /\
  py_int (Np.f64 (1 / Np.f64 (1000 / 500))) = 0%Z.
Proof. split; vm_compute; reflexivity. Qed.

Section NpScanDocument.

Variable scalar : Format.
Variable square : Q -> Q.
Variable cv : OpenCV.

Lemma np_find_screenCnt_length (cnts : list Contour) (screenCnt : Contour) :
  Np.find_screenCnt cv cnts = Some screenCnt -> List.length screenCnt = 4%nat.
Proof.
  induction cnts as [|c rest IH]; [discriminate|].
  change (Np.find_screenCnt cv (c :: rest))
    with (if Nat.eqb (List.length (Np.simplified cv c)) 4
          then Some (Np.simplified cv c) else Np.find_screenCnt cv rest).
  destruct (Nat.eqb (List.length (Np.simplified cv c)) 4) eqn:E; [|exact IH].
  intros H. injection H as <-. now apply Nat.eqb_eq.
Qed.

(** The ratio of an image with rows is not zero. *)
Lemma np_ratio_nonzero (orig : Image cv) :
  fst (shape cv orig) <> 0%Z -> Qeq_bool (Np.ratio_of cv orig) 0 = false.
Proof.
  intros Hrows. destruct (Qeq_bool (Np.ratio_of cv orig) 0) eqn:E; [|reflexivity].
  apply Qeq_bool_eq in E. exfalso. unfold Np.ratio_of, Np.f64 in E.
  set (q := inject_Z (fst (shape cv orig)) / 500) in *.
  destruct (rnd_error binary64 q) as [Hlo Hhi]. rewrite E in Hlo, Hhi.
  unfold rnd_err in Hlo, Hhi.
  change (pow2 (- prec binary64)) with (pow2 (-53)) in Hlo, Hhi.
  change (pow2 (emin binary64 - 1)) with (pow2 (-1075)) in Hlo, Hhi.
  assert (P1 : pow2 (-53) <= 1 # 2) by (apply Qle_bool_iff; vm_compute; reflexivity).
  assert (P2 : pow2 (-1075) < 1 # 1000)
    by (apply Qlt_alt; vm_compute; reflexivity).
  pose proof (Qabs_nonneg q) as Habs.
  assert (Eq0 : q == inject_Z (fst (shape cv orig)) * (1 # 500)).
  { subst q. unfold Qdiv. change (/ 500) with (1 # 500). reflexivity. }
  assert (Hq : (1 # 500) <= Qabs q).
  { destruct (Z_lt_le_dec (fst (shape cv orig)) 0) as [Hneg|Hpos].
    - assert (Hz : inject_Z (fst (shape cv orig)) <= inject_Z (-1))
        by (rewrite <- Zle_Qle; lia).
      change (inject_Z (-1)) with (-1) in Hz.
      assert (Hq0 : q <= 0) by lra.
      pose proof (Qabs_neg q Hq0) as Eq. lra.
    - assert (Hz : inject_Z 1 <= inject_Z (fst (shape cv orig)))
        by (rewrite <- Zle_Qle; lia).
      change (inject_Z 1) with 1 in Hz.
      assert (Hq0 : 0 <= q) by lra.
      pose proof (Qabs_pos q Hq0) as Eq. lra. }
  assert (Hb : Qabs q <= Qabs q * pow2 (-53) + pow2 (-1075)).
  { apply Qabs_Qle_condition. split; lra. }
  nra.
Qed.

(** [scan_document] once the file has been read, has rows, and the working
    copy has columns. *)
Lemma np_scan_document_eq (path : string) (orig : Image cv) :
  imread cv path = Some orig ->
  fst (shape cv orig) <> 0%Z ->
  (0 < Np.working_width cv orig)%Z ->
  Np.scan_document scalar square cv path
  = match Np.find_screenCnt cv (Np.candidates cv orig) with
    | None => (Returned PyNone, [EvImread path; EvPrint no_document_message])
    | Some screenCnt =>
        match Np.four_point_transform scalar square cv orig
                (Np.scale (Np.ratio_of cv orig) screenCnt) with
        | None => (Raised ValueError, [EvImread path])
        | Some warped =>
            (Returned
               (PyPair (Np.working_copy cv orig)
                  (adaptiveThreshold_GAUSSIAN_BINARY cv
                     (cvtColor_BGR2GRAY cv warped) 255 11 2)),
             [EvImread path])
        end
    end.
Proof.
  intros Hread Hrows Hwidth. unfold Np.scan_document. rewrite Hread. cbv zeta.
  fold (Np.ratio_of cv orig). rewrite (np_ratio_nonzero orig Hrows).
  fold (Np.working_width cv orig).
  assert (Hw : (Np.working_width cv orig <=? 0)%Z = false) by (apply Z.leb_gt; lia).
  rewrite Hw. fold (Np.working_copy cv orig). fold (Np.candidates cv orig).
  destruct (Np.find_screenCnt cv (Np.candidates cv orig)) as [screenCnt|];
    [|reflexivity].
  destruct (Np.four_point_transform scalar square cv orig _); reflexivity.
Qed.


End NpScanDocument.


(** The scan of the small sheet in the photograph of 480 rows has 23
    columns and 48 rows. *)
Example np_scan_vga :
  fst (Np.scan_document binary32 (Np.rounded_square binary32) (scene_cv files_vga) "sample_images/dollar_bill.JPG")
  = Returned (PyPair (cv := scene_cv files_vga)
                (mkScene 500 666 [speck; small_sheet]) (mkScene 48 23 [])).
Proof. vm_compute. reflexivity. Qed.

(** * The binarizer, for any mean of the window *)

Section MeanFacts.

Variable g : Z -> Q.
Hypothesis g_nonneg : Forall (fun z => 0 <= g z) offsets.
Hypothesis total_pos : 0 < weight_total g.

(** A weighted sum of values between [lo] and [hi] lies between [lo] and
    [hi] times the sum of the weights. *)
Lemma weighted_sum_between (img : GrayImage) (i j lo hi : Z) (ds : list (Z * Z)) :
  incl ds window ->
  (forall d, In d ds -> (lo <= pixel img (i + fst d) (j + snd d) <= hi)%Z) ->
  inject_Z lo * fold_right (fun d acc => weight g d + acc) 0 ds
  <= fold_right
       (fun d acc => weight g d * inject_Z (pixel img (i + fst d) (j + snd d)) + acc)
       0 ds
  /\ fold_right
       (fun d acc => weight g d * inject_Z (pixel img (i + fst d) (j + snd d)) + acc)
       0 ds
     <= inject_Z hi * fold_right (fun d acc => weight g d + acc) 0 ds.
Proof.
  induction ds as [|d ds IH]; intros Hincl Hpix; simpl.
  - split; lra.
  - assert (Hw : 0 <= weight g d)
      by (apply (weight_nonneg g g_nonneg), Hincl; now left).
    destruct IH as [IH0 IH1];
      [intros x Hx; apply Hincl; now right
      |intros x Hx; apply Hpix; now right|].
    destruct (Hpix d (or_introl eq_refl)) as [P0 P1].
    rewrite Zle_Qle in P0, P1.
    set (v := inject_Z (pixel img (i + fst d) (j + snd d))) in *.
    split; nra.
Qed.

Lemma local_mean_window_bounded : window_bounded (local_mean g).
Proof.
  intros img i j lo hi Hpix.
  destruct (weighted_sum_between img i j lo hi window (incl_refl _) Hpix) as [H0 H1].
  unfold local_mean. fold (weighted_sum g img i j) in H0, H1.
  fold (weight_total g) in H0, H1. split.
  - apply Qle_shift_div_l; [exact total_pos | exact H0].
  - apply Qle_shift_div_r; [exact total_pos | exact H1].
Qed.

(** Rounding a mean to an integer keeps it between the least and the
    greatest pixel. *)
Lemma rounded_mean_window_bounded : window_bounded (rounded_mean g).
Proof.
  intros img i j lo hi Hpix.
  destruct (local_mean_window_bounded img i j lo hi Hpix) as [H0 H1].
  unfold rounded_mean. set (m := local_mean g img i j) in *.
  rewrite <- !Zle_Qle. split.
  - rewrite <- (Qfloor_Z lo). apply Qfloor_resp_le. lra.
  - assert (Hlt : inject_Z (Qfloor (m + (1 # 2))) < inject_Z (hi + 1)).
    { eapply Qle_lt_trans; [apply Qfloor_le|].
      rewrite inject_Z_plus. change (inject_Z 1) with 1. lra. }
    rewrite <- Zlt_Qlt in Hlt. lia.
Qed.

End MeanFacts.

Lemma threshold_by_pixel (mean : GrayImage -> Z -> Z -> Q) (img : GrayImage) (i j : nat) :
  (i < List.length img)%nat -> (j < List.length (nth i img []))%nat ->
  nth j (nth i (threshold_by mean img) []) 0%Z
  = classify (nth j (nth i img []) 0%Z) (mean img (Z.of_nat i) (Z.of_nat j) - 2).
Proof.
  intros Hi Hj. unfold threshold_by.
  rewrite (nth_mapi_from _ 0 i img []) by exact Hi.
  rewrite (nth_mapi_from _ 0 j _ 0%Z) by exact Hj.
  reflexivity.
Qed.

(** C8, as the specification states it, fails, whether the mean is kept
    exact or rounded to an integer.  The all-black picture is binary and
    comes back all white.  So does the binarizer's own output: the bowl
    binarized once is black in the middle, and binarizing it again turns
    the black pixels far from the white ends white. *)
Lemma threshold_not_idempotent_counterexample :
  binary [[0%Z]] /\
  binarize binomial11 [[0%Z]] = [[255%Z]] /\
  threshold_by (rounded_mean binomial11) [[0%Z]] = [[255%Z]] /\
  bowl_once_rounded = threshold_by (rounded_mean binomial11) bowl /\
  binary bowl_once_rounded /\
  nth 10 (nth 0 bowl_once_rounded []) 0%Z = 0%Z /\
  nth 10 (nth 0 (threshold_by (rounded_mean binomial11) bowl_once_rounded) []) 0%Z
  = 255%Z /\
  threshold_by (rounded_mean binomial11) bowl_once_rounded <> bowl_once_rounded /\
  binarize binomial11 bowl_once <> bowl_once.
Proof.
  split; [binary_image|].
  split; [vm_compute; reflexivity|].
  split; [vm_compute; reflexivity|].
  split; [vm_compute; reflexivity|].
  split; [unfold bowl_once_rounded; binary_image|].
  split; [reflexivity|].
  split; [vm_compute; reflexivity|].
  split.
  - intros H. apply (f_equal (fun img => nth 10 (nth 0 img []) 0%Z)) in H.
    vm_compute in H. discriminate H.
  - intros H. apply (f_equal (fun img => nth 10 (nth 0 img []) 0%Z)) in H.
    vm_compute in H. discriminate H.
Qed.

(** C8, amended.  For any way of computing the local mean that stays
    between the least and the greatest pixel of the 11 x 11 window (an
    exact weighted mean, or one rounded to 8 bits), binarizing a binary
    image again leaves every white pixel white and turns a black pixel
    white when its whole window is black; a black pixel stays black exactly
    when the mean as the binarizer computes it is at least 2.  The result
    is binary again. *)
Theorem threshold_binary_pixel (mean : GrayImage -> Z -> Z -> Q)
    (img : GrayImage) (i j : nat) :
  window_bounded mean ->
  binary img ->
  (i < List.length img)%nat ->
  (j < List.length (nth i img []))%nat ->
  let v := nth j (nth i img []) 0%Z in
  let out := nth j (nth i (threshold_by mean img) []) 0%Z in
  (v = 255%Z -> out = 255%Z) /\
  ((forall d, In d window ->
      pixel img (Z.of_nat i + fst d) (Z.of_nat j + snd d) = 0%Z) ->
   out = 255%Z) /\
  (v = 0%Z -> (out = 0%Z <-> 2 <= mean img (Z.of_nat i) (Z.of_nat j))) /\
  (out = 0%Z \/ out = 255%Z).
Proof.
  intros Hmean Hbin Hi Hj v out. subst out.
  rewrite (threshold_by_pixel mean img i j Hi Hj). fold v.
  set (m := mean img (Z.of_nat i) (Z.of_nat j)).
  assert (Hv : v = 0%Z \/ v = 255%Z).
  { subst v. unfold binary in Hbin. rewrite Forall_forall in Hbin.
    assert (Hrow : Forall (fun v => v = 0%Z \/ v = 255%Z) (nth i img []))
      by (apply Hbin, nth_In; exact Hi).
    rewrite Forall_forall in Hrow. apply Hrow, nth_In. exact Hj. }
  assert (Hm1 : m <= 255).
  { destruct (Hmean img (Z.of_nat i) (Z.of_nat j) 0%Z 255%Z) as [_ H].
    - intros d _. destruct (pixel_binary img (Z.of_nat i + fst d)
                              (Z.of_nat j + snd d) Hbin) as [-> | ->]; lia.
    - exact H. }
  unfold classify.
  split; [|split; [|split]].
  - intros ->. destruct (Qle_bool (inject_Z 255) (m - 2)) eqn:E; [|reflexivity].
    apply Qle_bool_iff in E. change (inject_Z 255) with 255 in E. lra.
  - intros Hblack.
    destruct (Hmean img (Z.of_nat i) (Z.of_nat j) 0%Z 0%Z) as [_ H0].
    { intros d Hd. rewrite (Hblack d Hd). lia. }
    fold m in H0. change (inject_Z 0) with 0 in H0.
    destruct (Qle_bool (inject_Z v) (m - 2)) eqn:E; [|reflexivity].
    apply Qle_bool_iff in E.
    destruct Hv as [-> | ->];
      [change (inject_Z 0) with 0 in E | change (inject_Z 255) with 255 in E]; lra.
  - intros ->. change (inject_Z 0) with 0.
    destruct (Qle_bool 0 (m - 2)) eqn:E.
    + apply Qle_bool_iff in E. split; [intros _; lra | reflexivity].
    + apply Qle_bool_false in E. split; [discriminate | intros; lra].
  - destruct (Qle_bool (inject_Z v) (m - 2)); [now left | now right].
Qed.

Lemma threshold_binary_pixel_witness :
  let v := nth 10 (nth 0 bowl_once_rounded []) 0%Z in
  let out :=
    nth 10 (nth 0 (threshold_by (rounded_mean binomial11) bowl_once_rounded) []) 0%Z in
  (v = 255%Z -> out = 255%Z) /\
  ((forall d, In d window ->
      pixel bowl_once_rounded (Z.of_nat 0 + fst d) (Z.of_nat 10 + snd d) = 0%Z) ->
   out = 255%Z) /\
  (v = 0%Z ->
   (out = 0%Z <-> 2 <= rounded_mean binomial11 bowl_once_rounded (Z.of_nat 0) (Z.of_nat 10))) /\
  (out = 0%Z \/ out = 255%Z).
Proof.
  apply (threshold_binary_pixel (rounded_mean binomial11) bowl_once_rounded 0 10).
  - apply rounded_mean_window_bounded.
    + apply binomial11_nonneg.
    + apply binomial11_total.
  - unfold bowl_once_rounded. binary_image.
  - simpl. lia.
  - simpl. lia.
Defined.
